(** * Luxury Catering API: a shallow embedding of [main.py]

    The HTTP handlers of [main.py] are embedded as computations in a
    state-and-exception monad over a model of the process state (the module
    global [db] and the environment).  Python dictionaries are finite maps
    with string keys, documents of the store included. *)

From Stdlib Require Import ZArith String List.
From stdpp Require Import base option list gmap strings pretty fin_maps.

Local Open Scope string_scope.
Local Open Scope Z_scope.

(** ** Values and documents *)

(** The Python values that occur in documents and JSON bodies. [VId] is an
    identifier assigned by the store (an ObjectId). *)
#[warnings="-register-all"]
Inductive value : Type :=
  | VNone
  | VStr (s : string)
  | VInt (z : Z)
  | VList (l : list value)
  | VId (n : nat).

(** A Python [dict] with string keys: a document, a keyword-argument
    dictionary, a JSON object. *)
Abbreviation doc := (gmap string value).

(** ** Exceptions and results *)

Inductive exn : Type :=
  | HTTPException (status_code : Z) (detail : string)
  | ValidationError (fields : list string)
  | StorageError (msg : string).

(** [str(e)].  Starlette renders an [HTTPException] as
    ["{status_code}: {detail}"]; a storage failure prints its message.  The
    report of a pydantic [ValidationError] is abbreviated to the names of the
    offending fields (no handler of [main.py] stringifies one). *)
Definition str (e : exn) : string :=
  match e with
  | HTTPException status_code detail => pretty status_code +:+ ": " +:+ detail
  | ValidationError fields => String.concat ", " fields
  | StorageError msg => msg
  end.

Inductive result (A : Type) : Type :=
  | Ok (a : A)
  | Raise (e : exn).
Arguments Ok {A} a.
Arguments Raise {A} e.

Global Instance result_ret : MRet result := λ A a, Ok a.
Global Instance result_bind : MBind result := λ A B f r,
  match r with
  | Ok a => f a
  | Raise e => Raise e
  end.

Definition is_ok {A} (r : result A) : bool :=
  match r with Ok _ => true | Raise _ => false end.

(** ** Schema definitions (pydantic models) *)

Inductive ty : Type :=
  | TStr
  | TList (t : ty).

(** Validation is taken without coercion: a string field accepts a string,
    a list field a list of values of the element type. *)
Fixpoint has_type (t : ty) (v : value) : bool :=
  match t, v with
  | TStr, VStr _ => true
  | TList t', VList l => forallb (has_type t') l
  | _, _ => false
  end.

(** A declared field: its name, its type, and its default when it is not
    required. *)
Record field : Type := Field {
  fname : string;
  ftype : ty;
  fdefault : option value
}.

(** A model class is the list of its fields in declaration order. *)
Abbreviation schema := (list field).

(** [cls.model_fields], used for its keys only. *)
Definition model_fields (cls : schema) : list string := fname <$> cls.

Definition required_fields (cls : schema) : list string :=
  fname <$> filter (λ f, fdefault f = None) cls.

(** A model instance: the value of every declared field, in declared
    order. *)
Abbreviation model := (list (string * value)).

(** What validation makes of one declared field under the keyword arguments
    [kwargs]: the supplied value when it is well typed, the default when the
    key is absent, and no value otherwise. *)
Definition field_value (kwargs : doc) (f : field) : option value :=
  match kwargs !! fname f with
  | Some v => if has_type (ftype f) v then Some v else None
  | None => fdefault f
  end.

(** The fields pydantic reports: a required one that is absent, or a
    supplied one of the wrong type. *)
Definition field_errors (cls : schema) (kwargs : doc) : list string :=
  fname <$> filter (λ f, field_value kwargs f = None) cls.

(** Calling the class [cls] on the keyword arguments [kwargs]: every field
    is validated, and all failures are reported
    in one [ValidationError].  Keys that name no field are ignored. *)
Definition construct (cls : schema) (kwargs : doc) : result model :=
  match field_errors cls kwargs with
  | [] => Ok (omap (λ f, pair (fname f) <$> field_value kwargs f) cls)
  | errs => Raise (ValidationError errs)
  end.

(** [m.model_dump()]. *)
Definition model_dump (m : model) : doc := list_to_map m.

(** Modelled from the spec: the three content models of [schemas.py], which
    is not part of the sources at hand.  The data model lists their fields,
    all of them required; [tags] is a sequence of strings and may be empty. *)
Definition MenuItem : schema :=
  [ Field "title" TStr None;
    Field "description" TStr None;
    Field "category" TStr None;
    Field "tags" (TList TStr) None;
    Field "image_url" TStr None ].

Definition Testimonial : schema :=
  [ Field "name" TStr None;
    Field "title" TStr None;
    Field "quote" TStr None ].

Definition GalleryImage : schema :=
  [ Field "url" TStr None;
    Field "alt" TStr None ].

(** ** Process state *)

(** The document database behind the handle [db].  [collections] maps a
    collection name to its documents in insertion order; [next_id] is the
    next identifier the store hands out.  Failures of the store are an
    oracle: the [clock]-th operation on the store fails with message [msg]
    when [fault clock = Some msg]. *)
Record Database : Type := mkDatabase {
  name : string;
  collections : gmap string (list doc);
  next_id : nat;
  clock : nat;
  fault : nat → option string
}.

(** The state a handler runs in: the module global [db] of [database.py]
    ([None] when the connection was never established) and the process
    environment. *)
Record World : Type := mkWorld {
  db : option Database;
  environ : gmap string string
}.

Definition set_db (w : World) (d : Database) : World :=
  {| db := Some d; environ := environ w |}.

(** The documents of a collection as the store holds them; none when the
    collection does not exist or there is no store. *)
Definition docs_of (w : World) (coll : string) : list doc :=
  match db w with
  | Some d => collections d !!! coll
  | None => []
  end.

(** ** The handler monad: state and exceptions *)

Definition M (A : Type) : Type := World → result A * World.

Global Instance M_ret : MRet M := λ A a w, (Ok a, w).
Global Instance M_bind : MBind M := λ A B f m w,
  match m w with
  | (Ok a, w') => f a w'
  | (Raise e, w') => (Raise e, w')
  end.

Definition raise {A} (e : exn) : M A := λ w, (Raise e, w).

(** [try: body except Exception as e: handler e]. *)
Definition try_except {A} (body : M A) (handler : exn → M A) : M A := λ w,
  match body w with
  | (Ok a, w') => (Ok a, w')
  | (Raise e, w') => handler e w'
  end.

(** [for x in xs: body x]. *)
Fixpoint for_each {A} (xs : list A) (body : A → M ()) : M () :=
  match xs with
  | [] => mret ()
  | x :: xs' => body x;; for_each xs' body
  end.

(** Reading the module global [db]. *)
Definition get_db : M (option Database) := λ w, (Ok (db w), w).

(** [os.getenv(key)]. *)
Definition getenv (key : string) : M (option string) := λ w, (Ok (environ w !! key), w).

(** Truthiness of [os.getenv(key)]: set and not empty. *)
Definition truthy (o : option string) : bool :=
  match o with
  | Some v => negb (String.eqb v "")
  | None => false
  end.

(** ** The store driver (pymongo) *)

(** The clock of the store advances with every operation on it. *)
Definition tick (d : Database) : Database :=
  mkDatabase (name d) (collections d) (next_id d) (S (clock d)) (fault d).

(** One operation on the store: it fails when the oracle says so, and
    otherwise runs [op] on the database.  The clock advances either way.
    Without a handle the call is made on [None] and Python raises. *)
Definition store_op {A} (op : Database → A * Database) : M A := λ w,
  match db w with
  | None => (Raise (StorageError "'NoneType' object is not subscriptable"), w)
  | Some d =>
      match fault d (clock d) with
      | Some msg => (Raise (StorageError msg), set_db w (tick d))
      | None => let '(a, d') := op (tick d) in (Ok a, set_db w d')
      end
  end.

(** [db[coll].count_documents({})]. *)
Definition count_documents (coll : string) : M nat :=
  store_op (λ d, (length (collections d !!! coll), d)).

(** The document as stored: the store adds [_id] unless it is there. *)
Definition with_id (n : nat) (data : doc) : doc :=
  match data !! "_id" with
  | Some _ => data
  | None => <["_id" := VId n]> data
  end.

(** The database once [data] is appended to the collection [coll]. *)
Definition inserted (coll : string) (data : doc) (d : Database) : Database :=
  mkDatabase (name d)
    (<[coll := ((collections d !!! coll) ++ [with_id (next_id d) data])%list]> (collections d))
    (S (next_id d)) (clock d) (fault d).

(** [db[coll].insert_one(data)], which returns the identifier of the stored
    document. *)
Definition insert_one (coll : string) (data : doc) : M value :=
  store_op (λ d,
    (default (VId (next_id d)) (with_id (next_id d) data !! "_id"),
     inserted coll data d)).

(** [list(db[coll].find())]. *)
Definition find (coll : string) : M (list doc) :=
  store_op (λ d, (collections d !!! coll, d)).

(** [db.list_collection_names()]. *)
Definition list_collection_names : M (list string) :=
  store_op (λ d, (elements (dom (collections d)), d)).

(** ** The document store adapter *)

(** Modelled from the spec: the text of the failure the adapter of
    [database.py] raises when the connection is unavailable.  The spec fixes
    no wording; no statement below depends on it. *)
Definition unavailable : string := "Database not available".

(** Modelled from the spec: [create_document] of [database.py], which is not
    part of the sources at hand.  It inserts the record into the named
    collection and returns the identifier the store assigned; it fails with
    a storage error when the connection is unavailable or the store rejects
    the insert. *)
Definition create_document (collection_name : string) (data : doc) : M value :=
  d ← get_db;
  match d with
  | None => raise (StorageError unavailable)
  | Some _ => insert_one collection_name data
  end.

(** Modelled from the spec: [get_documents] of [database.py].  It returns all
    documents of the named collection in the store's order, none when the
    collection does not exist, and fails with a storage error on connection
    failure. *)
Definition get_documents (collection_name : string) : M (list doc) :=
  d ← get_db;
  match d with
  | None => raise (StorageError unavailable)
  | Some _ => find collection_name
  end.

(** ** The handlers of [main.py] *)

(** [read_root]. *)
Definition read_root : M doc :=
  mret {[ "message" := VStr "Luxury Catering API running" ]}.

(** The literal [defaults] of [seed_content]. *)
Definition defaults : list doc :=
  [ {[ "title" := VStr "Black Truffle Arancini";
       "description" := VStr "Crisp risotto pearls with aged Parmesan and shaved truffle.";
       "category" := VStr "Canapés";
       "tags" := VList [VStr "vegetarian"; VStr "signature"];
       "image_url" := VStr "https://images.unsplash.com/photo-1544025162-d76694265947?q=80&w=1600&auto=format&fit=crop" ]};
    {[ "title" := VStr "Butter-Poached Lobster";
       "description" := VStr "Champagne velouté, fennel pollen, and gold leaf.";
       "category" := VStr "Mains";
       "tags" := VList [VStr "seafood"];
       "image_url" := VStr "https://images.unsplash.com/photo-1546069901-ba9599a7e63c?q=80&w=1600&auto=format&fit=crop" ]};
    {[ "title" := VStr "Valrhona Chocolate Tart";
       "description" := VStr "Sea salt ganache, vanilla crème, cacao nib praline.";
       "category" := VStr "Desserts";
       "tags" := VList [VStr "dessert"];
       "image_url" := VStr "https://images.unsplash.com/photo-1551024709-8f23befc6cf7?q=80&w=1600&auto=format&fit=crop" ]} ].

(** The literal list of testimonials of [seed_content]. *)
Definition testimonials : list doc :=
  [ {[ "name" := VStr "Amelia R."; "title" := VStr "Luxury Wedding, Lake Como";
       "quote" := VStr "Impeccable from first tasting to the final toast. A flawless experience." ]};
    {[ "name" := VStr "Marcus L."; "title" := VStr "Global Summit Gala";
       "quote" := VStr "World-class service that impressed every executive in the room." ]};
    {[ "name" := VStr "Sofia N."; "title" := VStr "Private Chef’s Table";
       "quote" := VStr "Each course arrived like art. Understated, elegant, unforgettable." ]} ].

(** The literal [gallery] of [seed_content]. *)
Definition gallery : list doc :=
  [ {[ "url" := VStr "https://images.unsplash.com/photo-1504754524776-8f4f37790ca0?q=80&w=1600&auto=format&fit=crop";
       "alt" := VStr "Caviar canapés" ]};
    {[ "url" := VStr "https://images.unsplash.com/photo-1517248135467-4c7edcad34c4?q=80&w=1600&auto=format&fit=crop";
       "alt" := VStr "Fine dining table" ]};
    {[ "url" := VStr "https://images.unsplash.com/photo-1542826438-5ec323d1cb97?q=80&w=1600&auto=format&fit=crop";
       "alt" := VStr "Elegant dessert" ]};
    {[ "url" := VStr "https://images.unsplash.com/photo-1529042410759-befb1204b468?q=80&w=1600&auto=format&fit=crop";
       "alt" := VStr "Champagne service" ]};
    {[ "url" := VStr "https://images.unsplash.com/photo-1541870730196-cd1efcbf5646?q=80&w=1600&auto=format&fit=crop";
       "alt" := VStr "Gourmet plating" ]};
    {[ "url" := VStr "https://images.unsplash.com/photo-1516683037151-9d56a6a58c89?q=80&w=1600&auto=format&fit=crop";
       "alt" := VStr "Chef in action" ]} ].

(** [if db[coll].count_documents({}) == 0: for item in items:
    create_document(coll, item)]. *)
Definition seed_collection (coll : string) (items : list doc) : M () :=
  n ← count_documents coll;
  if decide (n = 0%nat)
  then for_each items (λ item, create_document coll item;; mret ())
  else mret ().

(** [seed_content]: [seed_body] is what runs under [try]; whatever it raises,
    the [HTTPException] of the first check included, is caught by
    [except Exception as e] and raised again as a 500 with [str(e)]. *)
Definition seed_body : M doc :=
  d ← get_db;
  (if d is None
   then raise (HTTPException 500 "Database not configured")
   else mret ());;
  seed_collection "menuitem" defaults;;
  seed_collection "testimonial" testimonials;;
  seed_collection "galleryimage" gallery;;
  mret {[ "status" := VStr "ok" ]}.

Definition seed_content : M doc :=
  try_except seed_body (λ e, raise (HTTPException 500 (str e))).

(** A pure computation that may raise, run inside a handler. *)
Definition lift {A} (r : result A) : M A := λ w, (r, w).

(** [{k: v for k, v in d.items() if k in cls.model_fields}]. *)
Definition known_fields (cls : schema) (d : doc) : doc :=
  filter (λ kv, kv.1 ∈ model_fields cls) d.

(** [get_menu]. *)
Definition get_menu : M (list model) :=
  docs ← get_documents "menuitem";
  mapM (M := M) (λ d, lift (construct MenuItem (known_fields MenuItem d))) docs.

(** [get_testimonials]. *)
Definition get_testimonials : M (list model) :=
  docs ← get_documents "testimonial";
  mapM (M := M) (λ d, lift (construct Testimonial (known_fields Testimonial d))) docs.

(** [get_gallery]. *)
Definition get_gallery : M (list model) :=
  docs ← get_documents "galleryimage";
  mapM (M := M) (λ d, lift (construct GalleryImage (known_fields GalleryImage d))) docs.

(** [post_contact], given the validated payload; the adapter stores the
    fields of the model instance. *)
Definition post_contact (payload : model) : M doc :=
  try_except
    (create_document "contactinquiry" (model_dump payload);;
     mret {[ "status" := VStr "received" ]})
    (λ e, raise (HTTPException 500 (str e))).

(** A Python string is a sequence of code points; here it is the sequence
    of the bytes of its UTF-8 encoding.  A byte [10xxxxxx] continues the code
    point that an earlier byte began; every other byte begins one. *)
Definition continuation (c : Ascii.ascii) : bool :=
  match c with
  | Ascii.Ascii _ _ _ _ _ _ b6 b7 => b7 && negb b6
  end.

(** [s[:n]] on a string: its first [n] code points, that is, the bytes up to
    the one that would begin code point [n + 1]. *)
Fixpoint prefix (n : nat) (x : string) : string :=
  match x with
  | EmptyString => EmptyString
  | String c x' =>
      if continuation c then String c (prefix n x')
      else match n with
           | O => EmptyString
           | S n' => String c (prefix n' x')
           end
  end.

(** [test_database].  The assignments to [response] cannot raise; the only
    call that can is [list_collection_names], which the inner [try] guards,
    so the handler of the outer [try] sees [response] as the inner statement
    found it.  A pymongo database has the attribute [name], so
    [hasattr(db, 'name')] holds and [db.name] is read. *)
Definition test_database : M doc :=
  let response : doc :=
    {[ "backend" := VStr "✅ Running";
       "database" := VStr "❌ Not Available";
       "database_url" := VNone;
       "database_name" := VNone;
       "connection_status" := VStr "Not Connected";
       "collections" := VList [] ]} in
  d ← get_db;
  response ←
    match d with
    | Some d =>
        let response := <["database" := VStr "✅ Available"]> response in
        let response := <["database_url" := VStr "✅ Configured"]> response in
        let response := <["database_name" := VStr (name d)]> response in
        let response := <["connection_status" := VStr "Connected"]> response in
        try_except
          (try_except
             (collections ← list_collection_names;
              let response := <["collections" := VList (VStr <$> take 10 collections)]> response in
              mret (<["database" := VStr "✅ Connected & Working"]> response))
             (λ e, mret (<["database" :=
                            VStr ("⚠️  Connected but Error: " +:+ prefix 50 (str e))]> response)))
          (λ e, mret (<["database" := VStr ("❌ Error: " +:+ prefix 50 (str e))]> response))
    | None =>
        mret (<["database" := VStr "⚠️  Available but not initialized"]> response)
    end;
  url ← getenv "DATABASE_URL";
  let response :=
    <["database_url" := VStr (if truthy url then "✅ Set" else "❌ Not Set")]> response in
  dbname ← getenv "DATABASE_NAME";
  let response :=
    <["database_name" := VStr (if truthy dbname then "✅ Set" else "❌ Not Set")]> response in
  mret response.

(** ** The framework (FastAPI) *)

(** What the client gets. *)
Inductive http_response (A : Type) : Type :=
  | Http200 (body : A)
  | HttpError (status_code : Z) (detail : string)
  | Http422 (fields : list string)
  | InternalServerError (e : exn).
Arguments Http200 {A} body.
Arguments HttpError {A} status_code detail.
Arguments Http422 {A} fields.
Arguments InternalServerError {A} e.

(** The response to what a handler did: its return value with status 200;
    for an [HTTPException], its status and the body [{"detail": detail}];
    any other exception is not handled: the client gets the bare status 500
    ("Internal Server Error") and the exception goes on to the server. *)
Definition respond {A} (r : result A) : http_response A :=
  match r with
  | Ok a => Http200 a
  | Raise (HTTPException status_code detail) => HttpError status_code detail
  | Raise e => InternalServerError e
  end.

Definition status_of {A} (r : http_response A) : Z :=
  match r with
  | Http200 _ => 200
  | HttpError status_code _ => status_code
  | Http422 _ => 422
  | InternalServerError _ => 500
  end.

(** A route without a request body. *)
Definition route {A} (handler : M A) (w : World) : http_response A * World :=
  let '(r, w') := handler w in (respond r, w').

Section Contact.

(** The model of the contact form: [schemas.py] is not at hand and the spec
    leaves its fields open, so it is a parameter. *)
Variable ContactInquiry : schema.

(** [POST /contact]: the framework validates the JSON body against the
    annotation [payload: ContactInquiry] before the handler runs, and answers
    422 itself when that fails. *)
Definition contact_route (body : doc) (w : World) : http_response doc * World :=
  match construct ContactInquiry body with
  | Ok payload => route (post_contact payload) w
  | Raise (ValidationError fields) => (Http422 fields, w)
  | Raise e => (InternalServerError e, w)
  end.

End Contact.

(** * Vocabulary of the properties *)

(** [preserves I m]: running [m] keeps [I], whether it returns or raises. *)
Definition preserves {A} (I : World → Prop) (m : M A) : Prop :=
  ∀ w, I w → I (m w).2.

(** A store none of whose operations fails. *)
Definition no_faults (d : Database) : Prop := ∀ k, fault d k = None.

(** What the store makes of the documents it is given: each one gets an
    identifier, and nothing else changes. *)
Definition stamped (items stored : list doc) : Prop :=
  Forall2 (λ item st, ∃ n, st = with_id n item) items stored.

(** The database after the loop that inserts [items] into [coll]. *)
Definition insert_all (coll : string) (items : list doc) (d : Database) : Database :=
  foldl (λ d item, inserted coll item (tick d)) d items.

(** The three collections [seed_content] looks at. *)
Definition seeds (coll : string) : list doc :=
  if decide (coll = "menuitem") then defaults
  else if decide (coll = "testimonial") then testimonials
  else if decide (coll = "galleryimage") then gallery
  else [].

(** The bodies of the two acknowledgements. *)
Abbreviation ok_body := ({[ "status" := VStr "ok" ]} : doc).
Abbreviation received_body := ({[ "status" := VStr "received" ]} : doc).

(** An empty store that never fails, and the same store after one run of
    [seed_content]. *)
Definition empty_db : Database := mkDatabase "catering" ∅ 0 0 (λ _, None).
Definition empty_world : World := mkWorld (Some empty_db) ∅.
Definition seeded_world : World := (seed_content empty_world).2.

(** A store that fails its third operation, once. *)
Definition flaky_db : Database :=
  mkDatabase "catering" ∅ 0 0 (λ k, if decide (k = 2%nat) then Some "disk full" else None).
Definition flaky_world : World := mkWorld (Some flaky_db) ∅.

(** A store with twelve collections. *)
Definition crowded_db : Database :=
  mkDatabase "catering"
    (list_to_map ((λ c, (c, [ (∅ : doc) ])) <$>
       ["a"; "b"; "c"; "d"; "e"; "f"; "g"; "h"; "i"; "j"; "k"; "l"]))
    12 0 (λ _, None).
Definition crowded_world : World := mkWorld (Some crowded_db) ∅.

(** A store whose every operation fails. *)
Definition failing_db : Database :=
  mkDatabase "catering" ∅ 0 0 (λ _, Some "connection refused").
Definition failing_world : World := mkWorld (Some failing_db) ∅.

(** A document supplies a field when it has a well-typed value under the
    field's name, or lacks the key while the field has a default. *)
Definition supplies (d : doc) (f : field) : bool :=
  match d !! fname f with
  | Some v => has_type (ftype f) v
  | None => match fdefault f with Some _ => true | None => false end
  end.

(** A document conforms to a schema when it supplies every field of it. *)
Definition conforms (cls : schema) (d : doc) : bool := forallb (supplies d) cls.

(** The object a model instance serializes to has exactly the declared
    fields, each with the value the document has for it. *)
Definition returned_as (cls : schema) (d : doc) (r : model) : Prop :=
  r.*1 = model_fields cls
  ∧ ∀ k, model_dump r !! k = if decide (k ∈ model_fields cls) then d !! k else None.

(** What a read handler does with the documents it got. *)
Definition read_models (cls : schema) (docs : list doc) : M (list model) :=
  mapM (M := M) (λ d, lift (construct cls (known_fields cls d))) docs.

(** The shape of a successful read: one object per document, in the same
    order, each with exactly the declared fields and the values stored for
    them, and none with the identifier of the store. *)
Definition filtered_read (cls : schema) (docs : list doc) (rs : list model) : Prop :=
  Forall2 (returned_as cls) docs rs
  ∧ Forall (λ r, model_dump r !! "_id" = None) rs.

(** A menu document as somebody may have put it into the store by hand: with
    the identifier of the store and a key no schema knows. *)
Definition priced_doc : doc :=
  {[ "_id" := VId 7;
     "title" := VStr "Oysters";
     "description" := VStr "On ice.";
     "category" := VStr "Canapés";
     "tags" := VList [];
     "image_url" := VStr "https://example.com/oysters.jpg";
     "price" := VInt 42 ]}.

(** A menu document without a title. *)
Definition untitled_doc : doc :=
  {[ "description" := VStr "On ice.";
     "category" := VStr "Canapés";
     "tags" := VList [];
     "image_url" := VStr "https://example.com/oysters.jpg" ]}.

(** A store that holds the given menu documents and does not fail. *)
Definition menu_db (docs : list doc) : Database :=
  mkDatabase "catering" {[ "menuitem" := docs ]} 8 0 (λ _, None).
Definition menu_world (docs : list doc) : World := mkWorld (Some (menu_db docs)) ∅.

(** The menu the client gets after seeding. *)
Definition seeded_menu : list model :=
  [ [ ("title", VStr "Black Truffle Arancini");
      ("description", VStr "Crisp risotto pearls with aged Parmesan and shaved truffle.");
      ("category", VStr "Canapés");
      ("tags", VList [VStr "vegetarian"; VStr "signature"]);
      ("image_url", VStr "https://images.unsplash.com/photo-1544025162-d76694265947?q=80&w=1600&auto=format&fit=crop") ];
    [ ("title", VStr "Butter-Poached Lobster");
      ("description", VStr "Champagne velouté, fennel pollen, and gold leaf.");
      ("category", VStr "Mains");
      ("tags", VList [VStr "seafood"]);
      ("image_url", VStr "https://images.unsplash.com/photo-1546069901-ba9599a7e63c?q=80&w=1600&auto=format&fit=crop") ];
    [ ("title", VStr "Valrhona Chocolate Tart");
      ("description", VStr "Sea salt ganache, vanilla crème, cacao nib praline.");
      ("category", VStr "Desserts");
      ("tags", VList [VStr "dessert"]);
      ("image_url", VStr "https://images.unsplash.com/photo-1551024709-8f23befc6cf7?q=80&w=1600&auto=format&fit=crop") ] ].

(** A contact form, for the examples: the spec leaves the fields open and
    speaks of the submitter's name, contact and message. *)
Definition example_inquiry : schema :=
  [ Field "name" TStr None;
    Field "email" TStr None;
    Field "message" TStr None ].

(** A body that validates against it, and the payload it validates to. *)
Definition example_body : doc :=
  {[ "name" := VStr "Ada"; "email" := VStr "ada@example.com";
     "message" := VStr "A dinner for twelve, please." ]}.

Definition example_payload : model :=
  [ ("name", VStr "Ada"); ("email", VStr "ada@example.com");
    ("message", VStr "A dinner for twelve, please.") ].

(** What [test_database] reports of an environment variable. *)
Definition set_or_not (o : option string) : value :=
  VStr (if truthy o then "✅ Set" else "❌ Not Set").

(** A store that works, in a process whose environment names it. *)
Definition configured_world : World :=
  mkWorld (Some empty_db)
    {[ "DATABASE_URL" := "mongodb://localhost:27017"; "DATABASE_NAME" := "catering" ]}.




(** A store that holds a menu document already, and nothing else. *)
Definition half_db : Database :=
  mkDatabase "catering" {[ "menuitem" := [priced_doc] ]} 8 0 (λ _, None).
Definition half_world : World := mkWorld (Some half_db) ∅.

(** Two documents agree on the fields a schema declares. *)
Definition agree_on (cls : schema) (d1 d2 : doc) : Prop :=
  ∀ k, k ∈ model_fields cls → d1 !! k = d2 !! k.

(** A menu document whose tags are not a list. *)
Definition mistyped_doc : doc :=
  {[ "title" := VStr "Oysters";
     "description" := VStr "On ice.";
     "category" := VStr "Canapés";
     "tags" := VStr "seafood";
     "image_url" := VStr "https://example.com/oysters.jpg" ]}.

(** [priced_doc] with other values under the keys no schema knows. *)
Definition repriced_doc : doc :=
  <["price" := VInt 58]> (<["_id" := VId 9]> (<["chef" := VStr "Marco"]> priced_doc)).

(** The answers a read handler can give: status 200 with a body, or the bare
    500 of the framework, for a failure of the store or for a
    [ValidationError]. *)
Definition list_or_bare_500 {A} (r : http_response A) : Prop :=
  (∃ body, r = Http200 body)
  ∨ (∃ msg, r = InternalServerError (StorageError msg))
  ∨ (∃ fields, r = InternalServerError (ValidationError fields)).

(** A client that submits the given payloads one after the other. *)
Definition submit_all (payloads : list model) : M () :=
  for_each payloads (λ payload, post_contact payload;; mret ()).

(** A working store in a process whose [DATABASE_URL] is the empty string. *)
Definition blank_url_world : World :=
  mkWorld (Some empty_db) {[ "DATABASE_URL" := ""; "DATABASE_NAME" := "catering" ]}.



(** A store whose every operation fails with a message of 60 characters. *)
Definition verbose_db : Database :=
  mkDatabase "catering" ∅ 0 0
    (λ _, Some "0123456789012345678901234567890123456789012345678901234567890").
Definition verbose_world : World := mkWorld (Some verbose_db) ∅.

(** * Properties *)

(** ** Running the monad *)

Lemma run_bind {A B} (m : M A) (f : A → M B) (w : World) :
  (m ≫= f) w = match m w with
               | (Ok a, w') => f a w'
               | (Raise e, w') => (Raise e, w')
               end.
Proof. reflexivity. Qed.

Lemma set_db_same (w : World) (d : Database) : db w = Some d → set_db w d = w.
Proof. destruct w as [o env]; simpl; intros ->; reflexivity. Qed.

Lemma set_db_twice (w : World) (d d' : Database) : set_db (set_db w d) d' = set_db w d'.
Proof. reflexivity. Qed.

(** ** Invariants of the state *)

Lemma preserves_ret {A} (I : World → Prop) (a : A) : preserves I (mret a).
Proof. intros w H; exact H. Qed.

Lemma preserves_raise {A} (I : World → Prop) (e : exn) : preserves I (raise (A := A) e).
Proof. intros w H; exact H. Qed.

Lemma preserves_bind {A B} (I : World → Prop) (m : M A) (f : A → M B) :
  preserves I m → (∀ a, preserves I (f a)) → preserves I (m ≫= f).
Proof.
  intros Hm Hf w Hw. rewrite run_bind.
  specialize (Hm w Hw). destruct (m w) as [[a|e] w']; simpl in *.
  - by apply Hf.
  - done.
Qed.

Lemma preserves_try {A} (I : World → Prop) (m : M A) (h : exn → M A) :
  preserves I m → (∀ e, preserves I (h e)) → preserves I (try_except m h).
Proof.
  intros Hm Hh w Hw. unfold try_except.
  specialize (Hm w Hw). destruct (m w) as [[a|e] w']; simpl in *.
  - done.
  - by apply Hh.
Qed.

Lemma preserves_for_each {A} (I : World → Prop) (xs : list A) (body : A → M ()) :
  (∀ x, preserves I (body x)) → preserves I (for_each xs body).
Proof.
  intros Hb. induction xs as [|x xs IH]; simpl.
  - apply preserves_ret.
  - apply preserves_bind; [apply Hb | intros _; apply IH].
Qed.

Lemma preserves_get_db (I : World → Prop) : preserves I get_db.
Proof. intros w H; exact H. Qed.

(** An operation on the store keeps the documents of [coll] when its effect
    on the database does. *)
Lemma preserves_store_op {A} (coll : string) (l : list doc) (op : Database → A * Database) :
  (∀ d, collections (op d).2 !!! coll = collections d !!! coll) →
  preserves (λ w, docs_of w coll = l) (store_op op).
Proof.
  intros Hop w Hw. unfold store_op, docs_of in *.
  destruct (db w) as [d|] eqn:Hd; simpl; [|by rewrite Hd].
  destruct (fault d (clock d)); simpl; [done|].
  specialize (Hop (tick d)). destruct (op (tick d)) as [a d']; simpl in *.
  by rewrite Hop.
Qed.

Lemma preserves_count_documents (coll c : string) (l : list doc) :
  preserves (λ w, docs_of w coll = l) (count_documents c).
Proof. by apply preserves_store_op. Qed.

Lemma preserves_create_document (coll c : string) (l : list doc) (data : doc) :
  c ≠ coll → preserves (λ w, docs_of w coll = l) (create_document c data).
Proof.
  intros Hne. apply preserves_bind; [apply preserves_get_db|].
  intros [d|]; [|apply preserves_raise].
  apply preserves_store_op. intros d'; simpl.
  by rewrite lookup_total_insert_ne.
Qed.

(** What [count_documents] returns. *)
Lemma count_documents_returns (c : string) (w w' : World) (n : nat) :
  count_documents c w = (Ok n, w') → n = length (docs_of w c).
Proof.
  unfold count_documents, store_op, docs_of.
  destruct (db w) as [d|]; [|done].
  destruct (fault d (clock d)); [done|]. simpl. by intros [= <- _].
Qed.

(** Seeding one collection leaves every collection that is not empty as it
    is, whatever the store does. *)
Lemma preserves_seed_collection (coll c : string) (l items : list doc) :
  l ≠ [] → preserves (λ w, docs_of w coll = l) (seed_collection c items).
Proof.
  intros Hl w Hw. unfold seed_collection. rewrite run_bind.
  pose proof (preserves_count_documents coll c l w Hw) as Hcount.
  destruct (count_documents c w) as [[n|e] w'] eqn:Hrun; simpl in *; [|done].
  apply count_documents_returns in Hrun.
  destruct (decide (n = 0%nat)) as [Hn|Hn]; [|done].
  destruct (decide (c = coll)) as [->|Hne].
  - rewrite Hw in Hrun. destruct l; [done|]. simpl in Hrun. lia.
  - apply preserves_for_each; [|done].
    intros x. apply preserves_bind; [by apply preserves_create_document|].
    intros _. apply preserves_ret.
Qed.

Lemma preserves_seed_content (coll : string) (l : list doc) :
  l ≠ [] → preserves (λ w, docs_of w coll = l) seed_content.
Proof.
  intros Hl. apply preserves_try; [|intros e; apply preserves_raise].
  apply preserves_bind; [apply preserves_get_db|]. intros d.
  apply preserves_bind; [destruct d; [apply preserves_ret|apply preserves_raise]|].
  intros _.
  repeat (apply preserves_bind; [by apply preserves_seed_collection|]; intros _).
  apply preserves_ret.
Qed.

(** ** A store without failures *)

Lemma store_op_ok {A} (op : Database → A * Database) (w : World) (d : Database) :
  db w = Some d → fault d (clock d) = None →
  store_op op w = (Ok (op (tick d)).1, set_db w (op (tick d)).2).
Proof.
  intros Hd Hf. unfold store_op. rewrite Hd, Hf.
  by destruct (op (tick d)).
Qed.

Lemma store_op_fault {A} (op : Database → A * Database) (w : World) (d : Database) (msg : string) :
  db w = Some d → fault d (clock d) = Some msg →
  store_op op w = (Raise (StorageError msg), set_db w (tick d)).
Proof. intros Hd Hf. unfold store_op. by rewrite Hd, Hf. Qed.

Lemma create_document_ok (coll : string) (data : doc) (w : World) (d : Database) :
  db w = Some d → fault d (clock d) = None →
  ∃ v, create_document coll data w = (Ok v, set_db w (inserted coll data (tick d))).
Proof.
  intros Hd Hf. unfold create_document, get_db. rewrite run_bind, Hd.
  unfold insert_one. rewrite (store_op_ok _ w d Hd Hf). simpl. eauto.
Qed.

Lemma create_document_fault (coll : string) (data : doc) (w : World) (d : Database) (msg : string) :
  db w = Some d → fault d (clock d) = Some msg →
  create_document coll data w = (Raise (StorageError msg), set_db w (tick d)).
Proof.
  intros Hd Hf. unfold create_document, get_db. rewrite run_bind, Hd.
  unfold insert_one. by rewrite (store_op_fault _ w d msg Hd Hf).
Qed.

Lemma create_document_unavailable (coll : string) (data : doc) (w : World) :
  db w = None →
  create_document coll data w = (Raise (StorageError unavailable), w).
Proof. intros Hd. unfold create_document, get_db. by rewrite run_bind, Hd. Qed.

Lemma get_documents_ok (coll : string) (w : World) (d : Database) :
  db w = Some d → fault d (clock d) = None →
  get_documents coll w = (Ok (docs_of w coll), set_db w (tick d)).
Proof.
  intros Hd Hf. unfold get_documents, get_db, docs_of. rewrite run_bind, Hd.
  unfold find. by rewrite (store_op_ok _ w d Hd Hf).
Qed.

Lemma get_documents_fault (coll : string) (w : World) (d : Database) (msg : string) :
  db w = Some d → fault d (clock d) = Some msg →
  get_documents coll w = (Raise (StorageError msg), set_db w (tick d)).
Proof.
  intros Hd Hf. unfold get_documents, get_db. rewrite run_bind, Hd.
  unfold find. by rewrite (store_op_fault _ w d msg Hd Hf).
Qed.

Lemma insert_all_no_faults (coll : string) (items : list doc) (d : Database) :
  no_faults d → no_faults (insert_all coll items d).
Proof.
  revert d. induction items as [|x xs IH]; intros d H; simpl; [done|].
  apply IH. intros k. apply H.
Qed.

Lemma insert_all_name (coll : string) (items : list doc) (d : Database) :
  name (insert_all coll items d) = name d.
Proof.
  revert d. induction items as [|x xs IH]; intros d; simpl; [done|].
  by rewrite IH.
Qed.

Lemma insert_all_other (coll c : string) (items : list doc) (d : Database) :
  c ≠ coll → collections (insert_all coll items d) !!! c = collections d !!! c.
Proof.
  intros Hne. revert d. induction items as [|x xs IH]; intros d; simpl; [done|].
  rewrite IH. simpl. by rewrite lookup_total_insert_ne.
Qed.

Lemma insert_all_same (coll : string) (items : list doc) (d : Database) :
  ∃ stored, collections (insert_all coll items d) !!! coll
            = (collections d !!! coll ++ stored)%list
            ∧ stamped items stored.
Proof.
  revert d. induction items as [|x xs IH]; intros d; simpl.
  - exists []. split; [by rewrite app_nil_r | constructor].
  - destruct (IH (inserted coll x (tick d))) as (stored & Heq & Hst).
    exists (with_id (next_id d) x :: stored). split.
    + rewrite Heq. simpl. rewrite lookup_total_insert_eq.
      by rewrite <- app_assoc.
    + constructor; [eauto | done].
Qed.

Lemma for_each_create_ok (coll : string) (items : list doc) (w : World) (d : Database) :
  db w = Some d → no_faults d →
  for_each items (λ item, create_document coll item;; mret ()) w
  = (Ok (), set_db w (insert_all coll items d)).
Proof.
  revert w d. induction items as [|x xs IH]; intros w d Hd Hf; simpl.
  - by rewrite set_db_same.
  - destruct (create_document_ok coll x w d Hd (Hf _)) as [v Hrun].
    rewrite run_bind, run_bind, Hrun. simpl.
    rewrite (IH (set_db w (inserted coll x (tick d))) (inserted coll x (tick d)));
      [done | done | intros k; apply Hf].
Qed.

(** Seeding one collection of a store that does not fail: the collection
    gets the defaults when it is empty, and nothing changes otherwise. *)
Lemma seed_collection_ok (coll : string) (items : list doc) (w : World) (d : Database) :
  db w = Some d → no_faults d →
  ∃ d', seed_collection coll items w = (Ok (), set_db w d')
        ∧ no_faults d' ∧ name d' = name d
        ∧ (∀ c, c ≠ coll → collections d' !!! c = collections d !!! c)
        ∧ (if decide (collections d !!! coll = [])
           then stamped items (collections d' !!! coll)
           else collections d' !!! coll = collections d !!! coll).
Proof.
  intros Hd Hf. unfold seed_collection, count_documents.
  rewrite run_bind, (store_op_ok _ w d Hd (Hf _)). simpl.
  destruct (decide (length (collections d !!! coll) = 0%nat)) as [Hn|Hn].
  - rewrite (for_each_create_ok coll items _ (tick d)); [|done|intros k; apply Hf].
    exists (insert_all coll items (tick d)). split; [done|].
    split; [apply insert_all_no_faults; intros k; apply Hf|].
    split; [by rewrite insert_all_name|].
    split; [intros c Hc; by rewrite insert_all_other|].
    apply length_zero_iff_nil in Hn. rewrite decide_True by done.
    destruct (insert_all_same coll items (tick d)) as (stored & Heq & Hst).
    rewrite Heq. simpl. by rewrite Hn.
  - exists (tick d). split; [done|].
    split; [intros k; apply Hf|]. split; [done|]. split; [done|].
    rewrite decide_False; [done|]. intros Hnil. by rewrite Hnil in Hn.
Qed.

(** A whole run of [seed_content] on a store that does not fail. *)
Lemma seed_content_ok (w : World) (d : Database) :
  db w = Some d → no_faults d →
  ∃ d', seed_content w = (Ok {[ "status" := VStr "ok" ]}, set_db w d')
        ∧ no_faults d' ∧ name d' = name d
        ∧ ∀ c, if decide (collections d !!! c = [])
               then stamped (seeds c) (collections d' !!! c)
               else collections d' !!! c = collections d !!! c.
Proof.
  intros Hd Hf. unfold seed_content, try_except, seed_body, get_db.
  rewrite run_bind, Hd. simpl. rewrite run_bind. simpl.
  destruct (seed_collection_ok "menuitem" defaults w d Hd Hf)
    as (d1 & Hrun1 & Hf1 & Hn1 & Ho1 & Hs1).
  rewrite run_bind, Hrun1.
  destruct (seed_collection_ok "testimonial" testimonials (set_db w d1) d1 eq_refl Hf1)
    as (d2 & Hrun2 & Hf2 & Hn2 & Ho2 & Hs2).
  rewrite set_db_twice in Hrun2. rewrite run_bind, Hrun2.
  destruct (seed_collection_ok "galleryimage" gallery (set_db w d2) d2 eq_refl Hf2)
    as (d3 & Hrun3 & Hf3 & Hn3 & Ho3 & Hs3).
  rewrite set_db_twice in Hrun3. rewrite run_bind, Hrun3. simpl.
  exists d3. split; [done|]. split; [done|]. split; [congruence|].
  intros c. unfold seeds.
  destruct (decide (c = "menuitem")) as [->|Hc1].
  { rewrite (Ho3 "menuitem"), (Ho2 "menuitem") by done. exact Hs1. }
  destruct (decide (c = "testimonial")) as [->|Hc2].
  { rewrite (Ho3 "testimonial") by done.
    rewrite (Ho1 "testimonial") in Hs2 by done. exact Hs2. }
  destruct (decide (c = "galleryimage")) as [->|Hc3].
  { rewrite (Ho2 "galleryimage"), (Ho1 "galleryimage") in Hs3 by done. exact Hs3. }
  rewrite (Ho3 c), (Ho2 c), (Ho1 c) by done.
  destruct (decide (collections d !!! c = [])) as [->|]; [constructor | done].
Qed.

Lemma stamped_length (items stored : list doc) :
  stamped items stored → length stored = length items.
Proof. intros H. symmetry. by eapply Forall2_length. Qed.

(** ** Seeding *)

(** C1.  Seeding is idempotent.  On an empty store that does not fail, two
    runs of [seed_content] in a row both answer [{"status": "ok"}] and leave
    3 documents in [menuitem], 3 in [testimonial] and 6 in [galleryimage];
    and whatever the store does, a run of [seed_content] leaves every
    collection that is not empty exactly as it was. *)
Theorem seed_content_idempotent :
  (∀ (w : World) (d : Database),
     db w = Some d → collections d = ∅ → no_faults d →
     let w1 := (seed_content w).2 in
     let w2 := (seed_content w1).2 in
     (seed_content w).1 = Ok ok_body
     ∧ (seed_content w1).1 = Ok ok_body
     ∧ length (docs_of w2 "menuitem") = 3%nat
     ∧ length (docs_of w2 "testimonial") = 3%nat
     ∧ length (docs_of w2 "galleryimage") = 6%nat)
  ∧ (∀ (w : World) (coll : string),
       docs_of w coll ≠ [] → docs_of (seed_content w).2 coll = docs_of w coll).
Proof.
  split.
  - intros w d Hd Hempty Hf.
    destruct (seed_content_ok w d Hd Hf) as (d1 & Hrun1 & Hf1 & _ & Hc1).
    destruct (seed_content_ok (set_db w d1) d1 eq_refl Hf1) as (d2 & Hrun2 & _ & _ & Hc2).
    rewrite set_db_twice in Hrun2.
    cbv zeta. rewrite Hrun1. simpl. rewrite Hrun2. simpl.
    assert (Hlen : ∀ c, seeds c ≠ [] →
                        length (collections d2 !!! c) = length (seeds c)).
    { intros c Hne. specialize (Hc1 c). specialize (Hc2 c).
      rewrite Hempty, lookup_total_empty in Hc1. rewrite decide_True in Hc1 by done.
      apply stamped_length in Hc1.
      rewrite decide_False in Hc2.
      - by rewrite Hc2.
      - intros Hnil. rewrite Hnil in Hc1. destruct (seeds c); [done | discriminate]. }
    repeat split; unfold docs_of; simpl; by rewrite Hlen.
  - intros w coll Hne.
    by apply (preserves_seed_content coll (docs_of w coll) Hne w).
Qed.

Lemma seed_content_idempotent_witness :
  length (docs_of (seed_content seeded_world).2 "menuitem") = 3%nat
  ∧ docs_of (seed_content seeded_world).2 "galleryimage" = docs_of seeded_world "galleryimage".
Proof.
  destruct seed_content_idempotent as [Htwice Hkeep]. split.
  - apply (Htwice empty_world empty_db); [reflexivity | reflexivity | intros k; reflexivity].
  - apply (Hkeep seeded_world "galleryimage"). vm_compute. discriminate.
Defined.

(** When the second insert of the first run fails, the run answers 500 with
    the message of the store, one menu item stays behind, and a second run
    finds [menuitem] not empty and leaves it at that. *)
Example seed_content_interrupted :
  route seed_content flaky_world
  = (HttpError 500 "disk full", (seed_content flaky_world).2)
  ∧ length (docs_of (seed_content flaky_world).2 "menuitem") = 1%nat
  ∧ (seed_content (seed_content flaky_world).2).1 = Ok ok_body
  ∧ length (docs_of (seed_content (seed_content flaky_world).2).2 "menuitem") = 1%nat.
Proof. repeat split. Qed.

(** C9.  [seed_content] without a storage handle: the [HTTPException] raised
    by the check [db is None] is caught by the handler's own
    [except Exception], so the detail of the 500 response is the string of
    that exception, ["500: Database not configured"], and not the bare
    message. *)
Theorem seed_content_unconfigured (env : gmap string string) :
  let w := mkWorld None env in
  seed_content w = (Raise (HTTPException 500 "500: Database not configured"), w)
  ∧ route seed_content w = (HttpError 500 "500: Database not configured", w)
  ∧ "500: Database not configured" ≠ "Database not configured".
Proof. repeat split. discriminate. Qed.

(** ** Failures of the store *)

Lemma get_documents_raises (coll : string) (w w' : World) (e : exn) :
  get_documents coll w = (Raise e, w') → ∃ msg, e = StorageError msg.
Proof.
  unfold get_documents, get_db, find, store_op. rewrite run_bind.
  destruct (db w) as [d|] eqn:Hd; simpl.
  - rewrite Hd. destruct (fault d (clock d)) as [msg|]; [|done].
    intros [= <- _]. eauto.
  - intros [= <- _]. eauto.
Qed.

Lemma route_raise_storage {A} (h : M A) (w w' : World) (msg : string) :
  h w = (Raise (StorageError msg), w') →
  route h w = (InternalServerError (StorageError msg), w').
Proof. intros H. unfold route. by rewrite H. Qed.

(** C2, as stated, fails: the read handlers do not turn a failure of the
    storage read into a 500 response that carries its message. *)
Lemma read_handlers_do_not_catch :
  ¬ (∀ (w w' : World) (e : exn),
       get_documents "menuitem" w = (Raise e, w') →
       (route get_menu w).1 = HttpError 500 (str e)).
Proof.
  intros H.
  specialize (H failing_world (set_db failing_world (tick failing_db))
                (StorageError "connection refused") eq_refl).
  vm_compute in H. discriminate H.
Qed.

(** C2, amended.  [seed_content] and [post_contact] catch whatever their body
    raises and answer 500 with the string of the failure as detail.  The
    three read handlers catch nothing: a failure of [get_documents] leaves
    the handler as it is, the client gets the bare 500 of the framework,
    and the state is the one the failed read left. *)
Theorem storage_failures_by_handler :
  (∀ (w w' : World) (e : exn),
     seed_body w = (Raise e, w') →
     route seed_content w = (HttpError 500 (str e), w'))
  ∧ (∀ (payload : model) (w w' : World) (e : exn),
       create_document "contactinquiry" (model_dump payload) w = (Raise e, w') →
       route (post_contact payload) w = (HttpError 500 (str e), w'))
  ∧ (∀ (w w' : World) (e : exn),
       get_documents "menuitem" w = (Raise e, w') →
       get_menu w = (Raise e, w') ∧ route get_menu w = (InternalServerError e, w'))
  ∧ (∀ (w w' : World) (e : exn),
       get_documents "testimonial" w = (Raise e, w') →
       get_testimonials w = (Raise e, w')
       ∧ route get_testimonials w = (InternalServerError e, w'))
  ∧ (∀ (w w' : World) (e : exn),
       get_documents "galleryimage" w = (Raise e, w') →
       get_gallery w = (Raise e, w') ∧ route get_gallery w = (InternalServerError e, w')).
Proof.
  split; [|split; [|split; [|split]]].
  - intros w w' e H. unfold route, seed_content, try_except. by rewrite H.
  - intros payload w w' e H. unfold route, post_contact, try_except.
    by rewrite run_bind, H.
  - intros w w' e H. destruct (get_documents_raises _ _ _ _ H) as [msg ->].
    assert (get_menu w = (Raise (StorageError msg), w')) as Hrun
      by (unfold get_menu; by rewrite run_bind, H).
    split; [done | by apply route_raise_storage].
  - intros w w' e H. destruct (get_documents_raises _ _ _ _ H) as [msg ->].
    assert (get_testimonials w = (Raise (StorageError msg), w')) as Hrun
      by (unfold get_testimonials; by rewrite run_bind, H).
    split; [done | by apply route_raise_storage].
  - intros w w' e H. destruct (get_documents_raises _ _ _ _ H) as [msg ->].
    assert (get_gallery w = (Raise (StorageError msg), w')) as Hrun
      by (unfold get_gallery; by rewrite run_bind, H).
    split; [done | by apply route_raise_storage].
Qed.

Lemma storage_failures_by_handler_witness :
  route seed_content failing_world
  = (HttpError 500 "connection refused", set_db failing_world (tick failing_db))
  ∧ route get_gallery failing_world
    = (InternalServerError (StorageError "connection refused"),
       set_db failing_world (tick failing_db)).
Proof.
  destruct storage_failures_by_handler as (Hseed & _ & _ & _ & Hgallery). split.
  - apply (Hseed failing_world _ (StorageError "connection refused")). reflexivity.
  - apply (Hgallery failing_world _ (StorageError "connection refused")). reflexivity.
Defined.

(** ** Validation against a schema *)

Lemma field_value_None (d : doc) (f : field) :
  field_value d f = None ↔ supplies d f = false.
Proof.
  unfold field_value, supplies.
  destruct (d !! fname f) as [v|].
  - destruct (has_type (ftype f) v); split; done.
  - destruct (fdefault f); split; done.
Qed.

Lemma field_errors_nil (cls : schema) (d : doc) :
  field_errors cls d = [] ↔ conforms cls d = true.
Proof.
  unfold field_errors, conforms. induction cls as [|f cls IH]; simpl; [done|].
  rewrite filter_cons. destruct (decide (field_value d f = None)) as [Hn|Hn].
  - apply field_value_None in Hn. rewrite Hn. simpl. split; done.
  - assert (supplies d f = true) as ->.
    { destruct (supplies d f) eqn:Hs; [done|]. by apply field_value_None in Hs. }
    simpl. exact IH.
Qed.

Lemma construct_ok (cls : schema) (d : doc) :
  conforms cls d = true →
  construct cls d = Ok (omap (λ f, pair (fname f) <$> field_value d f) cls).
Proof. intros H. apply field_errors_nil in H. unfold construct. by rewrite H. Qed.

Lemma construct_raises (cls : schema) (d : doc) :
  conforms cls d = false →
  ∃ errs, construct cls d = Raise (ValidationError errs).
Proof.
  intros H. unfold construct.
  destruct (field_errors cls d) as [|x errs] eqn:He; [|eauto].
  apply field_errors_nil in He. congruence.
Qed.

Lemma construct_is_ok (cls : schema) (d : doc) :
  is_ok (construct cls d) = conforms cls d.
Proof.
  destruct (conforms cls d) eqn:H.
  - by rewrite construct_ok.
  - destruct (construct_raises cls d H) as [errs ->]. done.
Qed.

(** The dictionary comprehension keeps the declared keys with their values
    and drops every other key. *)
Lemma known_fields_lookup (cls : schema) (d : doc) (k : string) :
  known_fields cls d !! k = if decide (k ∈ model_fields cls) then d !! k else None.
Proof.
  unfold known_fields. destruct (decide (k ∈ model_fields cls)) as [Hk|Hk].
  - destruct (d !! k) as [v|] eqn:Hd.
    + by apply map_lookup_filter_Some.
    + apply map_lookup_filter_None. by left.
  - apply map_lookup_filter_None. right. intros v _. exact Hk.
Qed.

Lemma supplies_known_fields (cls : schema) (d : doc) (f : field) :
  f ∈ cls → supplies (known_fields cls d) f = supplies d f.
Proof.
  intros Hf. unfold supplies. rewrite known_fields_lookup.
  rewrite decide_True; [done|]. by apply list_elem_of_fmap_2.
Qed.

Lemma conforms_known_fields (cls : schema) (d : doc) :
  conforms cls (known_fields cls d) = conforms cls d.
Proof.
  unfold conforms.
  assert (∀ l, (∀ f, f ∈ l → f ∈ cls) →
               forallb (supplies (known_fields cls d)) l = forallb (supplies d) l) as H.
  { induction l as [|f l IH]; intros Hsub; simpl; [done|].
    rewrite supplies_known_fields by (apply Hsub; left).
    rewrite IH; [done|]. intros g Hg. apply Hsub. by right. }
  by apply H.
Qed.

(** A required field that the document lacks makes it not conform. *)
Lemma missing_required (cls : schema) (d : doc) (k : string) :
  k ∈ required_fields cls → d !! k = None → conforms cls d = false.
Proof.
  unfold required_fields. intros Hk Hd.
  apply list_elem_of_fmap in Hk as (f & -> & Hf).
  apply list_elem_of_filter in Hf as [Hdef Hf].
  destruct (conforms cls d) eqn:Hc; [|done].
  unfold conforms in Hc. rewrite forallb_forall in Hc.
  apply list_elem_of_In in Hf. specialize (Hc f Hf).
  unfold supplies in Hc. by rewrite Hd, Hdef in Hc.
Qed.

Lemma construct_returned_as (cls : schema) (d kwargs : doc) :
  Forall (λ f, fdefault f = None) cls →
  (∀ f, f ∈ cls → kwargs !! fname f = d !! fname f) →
  conforms cls kwargs = true →
  returned_as cls d (omap (λ f, pair (fname f) <$> field_value kwargs f) cls).
Proof.
  unfold returned_as, conforms, model_fields, model_dump.
  induction cls as [|f cls IH]; intros Hreq Hkw Hc.
  - split; [done|]. intros k. rewrite decide_False; [done|]. apply not_elem_of_nil.
  - apply Forall_cons in Hreq as [Hf Hreq]. simpl in Hc.
    apply andb_true_iff in Hc as [Hs Hc].
    destruct IH as [IH1 IH2]; [done | intros g Hg; apply Hkw; by right | done |].
    assert (∃ v, field_value kwargs f = Some v ∧ d !! fname f = Some v) as (v & Hv & Hd).
    { unfold supplies in Hs. unfold field_value. rewrite <- (Hkw f) by left.
      destruct (kwargs !! fname f) as [v|]; [|by rewrite Hf in Hs].
      rewrite Hs. eauto. }
    simpl. rewrite Hv. simpl. split; [f_equal; exact IH1|].
    intros k. specialize (IH2 k). destruct (decide (k = fname f)) as [->|Hne].
    + rewrite lookup_insert_eq, decide_True by left. done.
    + rewrite lookup_insert_ne by done. etrans; [exact IH2|].
      destruct (decide (k ∈ fname <$> cls)) as [Hin|Hin].
      * rewrite decide_True; [done | by right].
      * rewrite decide_False; [done|]. intros [?|?]%elem_of_cons; done.
Qed.

(** Validating the filtered document of an all-required schema. *)
Lemma construct_known_fields (cls : schema) (d : doc) :
  Forall (λ f, fdefault f = None) cls →
  conforms cls d = true →
  ∃ r, construct cls (known_fields cls d) = Ok r ∧ returned_as cls d r.
Proof.
  intros Hreq Hc. rewrite <- conforms_known_fields in Hc.
  rewrite (construct_ok _ _ Hc). eexists; split; [done|].
  apply construct_returned_as; [done | | done].
  intros f Hf. rewrite known_fields_lookup, decide_True; [done|].
  by apply list_elem_of_fmap_2.
Qed.

(** ** The list comprehension of the read handlers *)

Lemma mapM_lift {A B} (f : A → result B) (l : list A) (w : World) :
  mapM (M := M) (λ x, lift (f x)) l w = (mapM (M := result) f l, w).
Proof.
  induction l as [|x l IH]; simpl; [done|].
  rewrite run_bind. unfold lift at 1. destruct (f x) as [y|e]; simpl; [|done].
  rewrite run_bind, IH. by destruct (mapM f l).
Qed.

Lemma mapM_result_ok {A B} (f : A → result B) (l : list A) :
  forallb (λ x, is_ok (f x)) l = true →
  ∃ rs, mapM (M := result) f l = Ok rs ∧ Forall2 (λ x y, f x = Ok y) l rs.
Proof.
  induction l as [|x l IH]; simpl; intros H.
  - exists []. split; [done | constructor].
  - apply andb_true_iff in H as [Hx Hl].
    destruct (IH Hl) as (rs & -> & Hrs).
    destruct (f x) as [y|e] eqn:Hfx; [|done].
    exists (y :: rs). split; [done | by constructor].
Qed.

Lemma mapM_result_raise {A B} (f : A → result B) (l : list A) :
  forallb (λ x, is_ok (f x)) l = false →
  ∃ x e, x ∈ l ∧ f x = Raise e ∧ mapM (M := result) f l = Raise e.
Proof.
  induction l as [|x l IH]; simpl; intros H; [done|].
  destruct (f x) as [y|e] eqn:Hfx; simpl in *.
  - destruct (IH H) as (x' & e & Hin & Hfx' & ->).
    exists x', e. split; [by right | done].
  - exists x, e. split; [by left | done].
Qed.

Lemma mapM_result_is_ok {A B} (f : A → result B) (l : list A) :
  is_ok (mapM (M := result) f l) = forallb (λ x, is_ok (f x)) l.
Proof.
  destruct (forallb (λ x, is_ok (f x)) l) eqn:H.
  - by destruct (mapM_result_ok f l H) as (rs & -> & _).
  - by destruct (mapM_result_raise f l H) as (x & e & _ & _ & ->).
Qed.

Lemma forallb_construct (cls : schema) (docs : list doc) :
  forallb (λ d, is_ok (construct cls (known_fields cls d))) docs
  = forallb (conforms cls) docs.
Proof.
  induction docs as [|d docs IH]; simpl; [done|].
  by rewrite construct_is_ok, conforms_known_fields, IH.
Qed.

Lemma read_models_ok (cls : schema) (docs : list doc) (w : World) :
  Forall (λ f, fdefault f = None) cls →
  forallb (conforms cls) docs = true →
  ∃ rs, read_models cls docs w = (Ok rs, w) ∧ Forall2 (returned_as cls) docs rs.
Proof.
  intros Hreq Hc. unfold read_models. rewrite mapM_lift.
  induction docs as [|d docs IH]; simpl.
  - exists []. split; [done | constructor].
  - simpl in Hc. apply andb_true_iff in Hc as [Hd Hc].
    destruct (IH Hc) as (rs & [= Hrun] & Hrs).
    destruct (construct_known_fields cls d Hreq Hd) as (r & -> & Hr).
    simpl. rewrite Hrun. simpl.
    exists (r :: rs). split; [done | by constructor].
Qed.

Lemma read_models_raises (cls : schema) (docs : list doc) (w : World) :
  forallb (conforms cls) docs = false →
  ∃ errs, read_models cls docs w = (Raise (ValidationError errs), w).
Proof.
  intros Hc. unfold read_models. rewrite mapM_lift.
  rewrite <- forallb_construct in Hc.
  destruct (mapM_result_raise _ _ Hc) as (d & e & _ & Hd & ->).
  destruct (conforms cls (known_fields cls d)) eqn:Hcd.
  - rewrite (construct_ok _ _ Hcd) in Hd. done.
  - destruct (construct_raises _ _ Hcd) as [errs Herrs].
    rewrite Herrs in Hd. injection Hd as <-. eauto.
Qed.

Lemma read_models_is_ok (cls : schema) (docs : list doc) (w : World) :
  is_ok (read_models cls docs w).1 = forallb (conforms cls) docs.
Proof.
  unfold read_models. rewrite mapM_lift. simpl.
  by rewrite mapM_result_is_ok, forallb_construct.
Qed.

Lemma returned_as_drops (cls : schema) (d : doc) (r : model) (k : string) :
  k ∉ model_fields cls → returned_as cls d r → model_dump r !! k = None.
Proof. intros Hk [_ H]. by rewrite H, decide_False. Qed.

Lemma all_required_MenuItem : Forall (λ f, fdefault f = None) MenuItem.
Proof. repeat constructor. Qed.

Lemma all_required_Testimonial : Forall (λ f, fdefault f = None) Testimonial.
Proof. repeat constructor. Qed.

Lemma all_required_GalleryImage : Forall (λ f, fdefault f = None) GalleryImage.
Proof. repeat constructor. Qed.

Lemma no_id_field (cls : schema) :
  bool_decide ("_id" ∉ model_fields cls) = true → "_id" ∉ model_fields cls.
Proof. intros H. by apply bool_decide_eq_true in H. Qed.

Lemma read_models_filtered (cls : schema) (docs : list doc) (w : World) :
  Forall (λ f, fdefault f = None) cls →
  "_id" ∉ model_fields cls →
  forallb (conforms cls) docs = true →
  ∃ rs, read_models cls docs w = (Ok rs, w) ∧ filtered_read cls docs rs.
Proof.
  intros Hreq Hid Hc.
  destruct (read_models_ok cls docs w Hreq Hc) as (rs & Hrun & Hrs).
  exists rs. split; [done|]. split; [done|].
  clear Hrun Hc. induction Hrs as [|d r docs' rs' Hr _ IH]; constructor.
  - by apply (returned_as_drops cls d).
  - apply IH.
Qed.

(** ** Reading *)

(** C3.  Schema filtering on reads.  When the storage read goes through and
    the documents of the collection conform to the schema, [get_menu] (and
    likewise [get_testimonials] and [get_gallery]) returns one object per
    stored document, in the store's order, and each has exactly the declared
    fields with the values of the document: every other key of the
    document, the identifier [_id] of the store included, is gone. *)
Theorem reads_strip_unknown_fields (w : World) (d : Database) :
  db w = Some d → fault d (clock d) = None →
  (forallb (conforms MenuItem) (docs_of w "menuitem") = true →
   ∃ rs, get_menu w = (Ok rs, set_db w (tick d))
         ∧ filtered_read MenuItem (docs_of w "menuitem") rs)
  ∧ (forallb (conforms Testimonial) (docs_of w "testimonial") = true →
     ∃ rs, get_testimonials w = (Ok rs, set_db w (tick d))
           ∧ filtered_read Testimonial (docs_of w "testimonial") rs)
  ∧ (forallb (conforms GalleryImage) (docs_of w "galleryimage") = true →
     ∃ rs, get_gallery w = (Ok rs, set_db w (tick d))
           ∧ filtered_read GalleryImage (docs_of w "galleryimage") rs).
Proof.
  intros Hd Hf. split; [|split]; intros Hc.
  - unfold get_menu. rewrite run_bind, (get_documents_ok _ w d Hd Hf).
    apply (read_models_filtered MenuItem);
      [apply all_required_MenuItem | by apply no_id_field | done].
  - unfold get_testimonials. rewrite run_bind, (get_documents_ok _ w d Hd Hf).
    apply (read_models_filtered Testimonial);
      [apply all_required_Testimonial | by apply no_id_field | done].
  - unfold get_gallery. rewrite run_bind, (get_documents_ok _ w d Hd Hf).
    apply (read_models_filtered GalleryImage);
      [apply all_required_GalleryImage | by apply no_id_field | done].
Qed.

(** C10.  A read is all or nothing.  When the storage read goes through,
    [get_menu] (and likewise [get_testimonials] and [get_gallery]) returns
    exactly when every stored document of the collection conforms to the
    schema; and one stored document that lacks a required field makes the
    whole call raise a [ValidationError]: nothing is returned for the other
    documents. *)
Theorem reads_fail_on_one_bad_document (w : World) (d : Database) :
  db w = Some d → fault d (clock d) = None →
  (is_ok (get_menu w).1 = forallb (conforms MenuItem) (docs_of w "menuitem")
   ∧ ∀ bad k, bad ∈ docs_of w "menuitem" →
              k ∈ required_fields MenuItem → bad !! k = None →
              ∃ errs, get_menu w = (Raise (ValidationError errs), set_db w (tick d)))
  ∧ (is_ok (get_testimonials w).1
     = forallb (conforms Testimonial) (docs_of w "testimonial")
     ∧ ∀ bad k, bad ∈ docs_of w "testimonial" →
                k ∈ required_fields Testimonial → bad !! k = None →
                ∃ errs, get_testimonials w
                        = (Raise (ValidationError errs), set_db w (tick d)))
  ∧ (is_ok (get_gallery w).1
     = forallb (conforms GalleryImage) (docs_of w "galleryimage")
     ∧ ∀ bad k, bad ∈ docs_of w "galleryimage" →
                k ∈ required_fields GalleryImage → bad !! k = None →
                ∃ errs, get_gallery w
                        = (Raise (ValidationError errs), set_db w (tick d))).
Proof.
  intros Hd Hf.
  assert (∀ cls docs bad k, bad ∈ docs → k ∈ required_fields cls → bad !! k = None →
                            forallb (conforms cls) docs = false) as Hbad.
  { intros cls docs bad k Hin Hk Hmiss.
    destruct (forallb (conforms cls) docs) eqn:Hall; [|done].
    rewrite forallb_forall in Hall. apply list_elem_of_In in Hin.
    specialize (Hall bad Hin). by rewrite (missing_required cls bad k Hk Hmiss) in Hall. }
  split; [|split].
  - unfold get_menu. rewrite run_bind, (get_documents_ok _ w d Hd Hf). split.
    + apply (read_models_is_ok MenuItem).
    + intros bad k Hin Hk Hmiss. apply (read_models_raises MenuItem). eauto.
  - unfold get_testimonials. rewrite run_bind, (get_documents_ok _ w d Hd Hf). split.
    + apply (read_models_is_ok Testimonial).
    + intros bad k Hin Hk Hmiss. apply (read_models_raises Testimonial). eauto.
  - unfold get_gallery. rewrite run_bind, (get_documents_ok _ w d Hd Hf). split.
    + apply (read_models_is_ok GalleryImage).
    + intros bad k Hin Hk Hmiss. apply (read_models_raises GalleryImage). eauto.
Qed.

Lemma reads_strip_unknown_fields_witness :
  ∃ rs, get_menu (menu_world [priced_doc])
        = (Ok rs, set_db (menu_world [priced_doc]) (tick (menu_db [priced_doc])))
        ∧ filtered_read MenuItem [priced_doc] rs.
Proof.
  destruct (reads_strip_unknown_fields (menu_world [priced_doc]) (menu_db [priced_doc]))
    as [Hmenu _]; [reflexivity | reflexivity |].
  apply Hmenu. reflexivity.
Defined.

Lemma reads_fail_on_one_bad_document_witness :
  ∃ errs, get_menu (menu_world [priced_doc; untitled_doc])
          = (Raise (ValidationError errs),
             set_db (menu_world [priced_doc; untitled_doc])
               (tick (menu_db [priced_doc; untitled_doc]))).
Proof.
  destruct (reads_fail_on_one_bad_document (menu_world [priced_doc; untitled_doc])
              (menu_db [priced_doc; untitled_doc]))
    as [[_ Hbad] _]; [reflexivity | reflexivity |].
  apply (Hbad untitled_doc "title").
  - right. left.
  - vm_compute. left.
  - reflexivity.
Defined.

(** ** Seeding, then reading *)

Lemma known_fields_with_id (cls : schema) (n : nat) (d : doc) :
  "_id" ∉ model_fields cls → known_fields cls (with_id n d) = known_fields cls d.
Proof.
  intros Hid. apply map_eq. intros k. rewrite !known_fields_lookup.
  destruct (decide (k ∈ model_fields cls)) as [Hk|Hk]; [|done].
  unfold with_id. destruct (d !! "_id"); [done|].
  apply lookup_insert_ne. intros <-. done.
Qed.

(** The identifiers the store adds make no difference to a read. *)
Lemma read_models_stamped (cls : schema) (items stored : list doc) (w : World) :
  "_id" ∉ model_fields cls → stamped items stored →
  read_models cls stored w = read_models cls items w.
Proof.
  intros Hid Hst. unfold read_models. rewrite !mapM_lift. f_equal.
  induction Hst as [|item st items stored [n ->] _ IH]; simpl; [done|].
  by rewrite known_fields_with_id, IH.
Qed.

(** C5.  Seed, then read.  After [seed_content] on an empty store that does
    not fail, [get_menu] returns exactly the three menu items of the seed
    data, in order, with their titles, categories and tags, and
    [get_gallery] returns 6 entries. *)
Theorem seed_then_read (w : World) (d : Database) :
  db w = Some d → collections d = ∅ → no_faults d →
  let w1 := (seed_content w).2 in
  (seed_content w).1 = Ok ok_body
  ∧ (get_menu w1).1 = Ok seeded_menu
  ∧ ∃ rs, (get_gallery w1).1 = Ok rs ∧ length rs = 6%nat.
Proof.
  intros Hd Hempty Hf.
  destruct (seed_content_ok w d Hd Hf) as (d1 & Hrun & Hf1 & _ & Hc).
  cbv zeta. rewrite Hrun. simpl. split; [done|].
  assert (∀ c, stamped (seeds c) (docs_of (set_db w d1) c)) as Hst.
  { intros c. specialize (Hc c).
    rewrite Hempty, lookup_total_empty, decide_True in Hc by done. exact Hc. }
  split.
  - unfold get_menu.
    rewrite run_bind, (get_documents_ok "menuitem" (set_db w d1) d1 eq_refl (Hf1 _)).
    change (mapM _ ?docs) with (read_models MenuItem docs).
    rewrite (read_models_stamped MenuItem (seeds "menuitem")); [| by apply no_id_field | apply Hst].
    reflexivity.
  - unfold get_gallery.
    rewrite run_bind, (get_documents_ok "galleryimage" (set_db w d1) d1 eq_refl (Hf1 _)).
    change (mapM _ ?docs) with (read_models GalleryImage docs).
    rewrite (read_models_stamped GalleryImage (seeds "galleryimage")); [| by apply no_id_field | apply Hst].
    eexists. split; reflexivity.
Qed.

Lemma seed_then_read_witness :
  (get_menu seeded_world).1 = Ok seeded_menu.
Proof.
  apply (seed_then_read empty_world empty_db); [reflexivity | reflexivity | intros k; reflexivity].
Defined.

(** ** The contact form *)

Lemma missing_required_reported (cls : schema) (d : doc) (k : string) :
  k ∈ required_fields cls → d !! k = None → k ∈ field_errors cls d.
Proof.
  unfold required_fields, field_errors. intros Hk Hd.
  apply list_elem_of_fmap in Hk as (f & -> & Hf).
  apply list_elem_of_filter in Hf as [Hdef Hf].
  apply list_elem_of_fmap_2, list_elem_of_filter. split; [|done].
  unfold field_value. by rewrite Hd.
Qed.

(** C4.  Validation rejection.  A body that lacks a required field of
    [ContactInquiry] is answered with status 422, which reports the field;
    the handler does not run, and the state, the store included, is what it
    was. *)
Theorem contact_rejects_missing_field
    (ContactInquiry : schema) (body : doc) (k : string) (w : World) :
  k ∈ required_fields ContactInquiry → body !! k = None →
  ∃ fields, contact_route ContactInquiry body w = (Http422 fields, w)
            ∧ k ∈ fields
            ∧ status_of (contact_route ContactInquiry body w).1 = 422
            ∧ docs_of (contact_route ContactInquiry body w).2 "contactinquiry"
              = docs_of w "contactinquiry".
Proof.
  intros Hk Hmiss.
  pose proof (missing_required_reported _ _ _ Hk Hmiss) as Hin.
  unfold contact_route, construct.
  destruct (field_errors ContactInquiry body) as [|x errs]; [by apply not_elem_of_nil in Hin|].
  exists (x :: errs). done.
Qed.

Lemma contact_rejects_missing_field_witness :
  ∃ fields,
    contact_route example_inquiry
      {[ "name" := VStr "Ada"; "email" := VStr "ada@example.com" ]} empty_world
    = (Http422 fields, empty_world)
    ∧ "message" ∈ fields.
Proof.
  destruct (contact_rejects_missing_field example_inquiry
              {[ "name" := VStr "Ada"; "email" := VStr "ada@example.com" ]}
              "message" empty_world) as (fields & Hrun & Hin & _).
  - vm_compute. right. right. left.
  - reflexivity.
  - exists fields. split; [exact Hrun | exact Hin].
Defined.

(** C6.  Contact write.  For a body that validates to [payload]: when the
    insert goes through, the answer is [{"status": "received"}] with status
    200 and the record is the last document of [contactinquiry], with the
    identifier the store gave it; when the store fails the insert with
    [msg], the answer is 500 with detail [msg] and the collection is as it
    was; and in general, whatever [create_document] raises comes back as a
    500 whose detail is the string of the failure. *)
Theorem contact_write
    (ContactInquiry : schema) (body : doc) (payload : model) (w : World) :
  construct ContactInquiry body = Ok payload →
  (∀ d, db w = Some d → fault d (clock d) = None →
     ∃ w', contact_route ContactInquiry body w = (Http200 received_body, w')
           ∧ docs_of w' "contactinquiry"
             = (docs_of w "contactinquiry" ++ [with_id (next_id d) (model_dump payload)])%list)
  ∧ (∀ d msg, db w = Some d → fault d (clock d) = Some msg →
       ∃ w', contact_route ContactInquiry body w = (HttpError 500 msg, w')
             ∧ docs_of w' "contactinquiry" = docs_of w "contactinquiry")
  ∧ (∀ e w', create_document "contactinquiry" (model_dump payload) w = (Raise e, w') →
       contact_route ContactInquiry body w = (HttpError 500 (str e), w')).
Proof.
  intros Hvalid. unfold contact_route. rewrite Hvalid.
  unfold route, post_contact, try_except. split; [|split].
  - intros d Hd Hf.
    destruct (create_document_ok "contactinquiry" (model_dump payload) w d Hd Hf)
      as [v Hrun].
    rewrite run_bind, Hrun. simpl. eexists. split; [reflexivity|].
    unfold docs_of. rewrite Hd. simpl. by rewrite lookup_total_insert_eq.
  - intros d msg Hd Hf.
    rewrite run_bind,
      (create_document_fault "contactinquiry" (model_dump payload) w d msg Hd Hf).
    simpl. eexists. split; [reflexivity|].
    unfold docs_of. by rewrite Hd.
  - intros e w' Hrun. by rewrite run_bind, Hrun.
Qed.

Lemma contact_write_witness :
  ∃ w', contact_route example_inquiry example_body empty_world
        = (Http200 received_body, w')
        ∧ docs_of w' "contactinquiry" = [with_id 0 (model_dump example_payload)].
Proof.
  destruct (contact_write example_inquiry example_body example_payload empty_world)
    as (Hok & _ & _); [reflexivity|].
  apply (Hok empty_db); reflexivity.
Defined.

(** ** The diagnostic endpoint *)

(** Unfolding [test_database] once the handle [db] is known. *)
Ltac run_test_database Hd :=
  unfold test_database;
  unfold mbind, M_bind, get_db, getenv, mret, M_ret, try_except,
    list_collection_names, store_op;
  rewrite Hd; cbv beta iota zeta; try rewrite Hd.

(** What [test_database] answers, by the state of the store. *)
Lemma test_database_returns (w : World) :
  ∃ response w',
    test_database w = (Ok response, w')
    ∧ dom response
      = ({[ "backend"; "database"; "database_url"; "database_name";
            "connection_status"; "collections" ]} : gset string)
    ∧ response !! "database_url" = Some (set_or_not (environ w !! "DATABASE_URL"))
    ∧ response !! "database_name" = Some (set_or_not (environ w !! "DATABASE_NAME"))
    ∧ match db w with
      | None =>
          response !! "database" = Some (VStr "⚠️  Available but not initialized")
          ∧ response !! "collections" = Some (VList [])
      | Some d =>
          match fault d (clock d) with
          | Some msg =>
              response !! "database"
              = Some (VStr ("⚠️  Connected but Error: " +:+ prefix 50 msg))
              ∧ response !! "collections" = Some (VList [])
          | None =>
              response !! "database" = Some (VStr "✅ Connected & Working")
              ∧ response !! "collections"
                = Some (VList (VStr <$> take 10 (elements (dom (collections d)))))
          end
      end.
Proof.
  destruct (db w) as [d|] eqn:Hd.
  - destruct (fault d (clock d)) as [msg|] eqn:Hf.
    + run_test_database Hd. rewrite Hf. cbv beta iota zeta.
      eexists _, _. split; [reflexivity|]. repeat split; reflexivity.
    + run_test_database Hd. rewrite Hf. cbv beta iota zeta.
      eexists _, _. split; [reflexivity|]. repeat split; reflexivity.
  - run_test_database Hd.
    eexists _, _. split; [reflexivity|]. repeat split; reflexivity.
Qed.

Lemma truthy_spec (o : option string) :
  truthy o = true ↔ ∃ v, o = Some v ∧ v ≠ "".
Proof.
  unfold truthy. destruct o as [v|].
  - rewrite negb_true_iff. split.
    + intros H. exists v. split; [done|]. intros ->. done.
    + intros (v' & [= <-] & Hne). by apply String.eqb_neq.
  - split; [done | by intros (v & ? & _)].
Qed.

(** C7.  The answer of [test_database] has exactly the keys [backend],
    [database], [database_url], [database_name], [connection_status] and
    [collections].  With the connection established, the handler stores the
    name of the database under [database_name], and its last statement
    overwrites it: what the client gets is ["✅ Set"] when the environment
    has a [DATABASE_NAME] that is not the empty string and ["❌ Not Set"]
    otherwise, and so not the name of the database, unless the database is
    called just that. *)
Theorem test_database_name_overwritten (w : World) (d : Database) :
  db w = Some d →
  ∃ response w',
    test_database w = (Ok response, w')
    ∧ dom response
      = ({[ "backend"; "database"; "database_url"; "database_name";
            "connection_status"; "collections" ]} : gset string)
    ∧ (response !! "database_name" = Some (VStr "✅ Set")
       ∨ response !! "database_name" = Some (VStr "❌ Not Set"))
    ∧ (response !! "database_name" = Some (VStr "✅ Set")
       ↔ ∃ v, environ w !! "DATABASE_NAME" = Some v ∧ v ≠ "")
    ∧ (name d ≠ "✅ Set" → name d ≠ "❌ Not Set" →
       response !! "database_name" ≠ Some (VStr (name d))).
Proof.
  intros Hd.
  destruct (test_database_returns w) as (response & w' & Hrun & Hdom & _ & Hname & _).
  exists response, w'. split; [done|]. split; [done|].
  rewrite Hname. unfold set_or_not. rewrite <- truthy_spec.
  destruct (truthy (environ w !! "DATABASE_NAME")).
  - split; [by left|]. split; [done|]. intros Hset _ [= Heq]. by rewrite Heq in Hset.
  - split; [by right|]. split; [done|]. intros _ Hnot [= Heq]. by rewrite Heq in Hnot.
Qed.

Lemma test_database_name_overwritten_witness :
  ∃ response w',
    test_database configured_world = (Ok response, w')
    ∧ response !! "database_name" ≠ Some (VStr "catering").
Proof.
  destruct (test_database_name_overwritten configured_world empty_db eq_refl)
    as (response & w' & Hrun & _ & _ & _ & Hlost).
  exists response, w'. split; [exact Hrun|].
  apply Hlost; discriminate.
Defined.

(** C8.  [test_database] never raises.  In every state it returns, and the
    answer has status 200; its [collections] has at most 10 entries; without
    a storage handle its [database] is the string for a store that is not
    initialized, and when [list_collection_names] raises it is the string
    for a connection with an error, which carries the first 50 characters
    of the message. *)
Theorem test_database_never_raises (w : World) :
  ∃ response w',
    test_database w = (Ok response, w')
    ∧ route test_database w = (Http200 response, w')
    ∧ (∃ entries, response !! "collections" = Some (VList entries)
                  ∧ (length entries ≤ 10)%nat)
    ∧ (db w = None →
       response !! "database" = Some (VStr "⚠️  Available but not initialized"))
    ∧ (∀ d msg, db w = Some d → fault d (clock d) = Some msg →
         response !! "database"
         = Some (VStr ("⚠️  Connected but Error: " +:+ prefix 50 msg))).
Proof.
  destruct (test_database_returns w) as (response & w' & Hrun & _ & _ & _ & Hdb).
  exists response, w'. split; [done|]. split; [unfold route; by rewrite Hrun|].
  destruct (db w) as [d|] eqn:Hd.
  - destruct (fault d (clock d)) as [msg|] eqn:Hf.
    + destruct Hdb as [Hdatabase Hcolls]. split; [|split].
      * exists []. split; [done | simpl; lia].
      * done.
      * intros d' msg' [= <-] Hf'. rewrite Hf in Hf'. by injection Hf' as <-.
    + destruct Hdb as [Hdatabase Hcolls]. split; [|split].
      * eexists. split; [exact Hcolls|].
        rewrite length_fmap, length_take. lia.
      * done.
      * intros d' msg' [= <-] Hf'. by rewrite Hf in Hf'.
  - destruct Hdb as [Hdatabase Hcolls]. split; [|split].
    + exists []. split; [done | simpl; lia].
    + done.
    + intros d' msg' [=].
Qed.

(** Of twelve collections, ten are listed. *)
Example test_database_lists_ten :
  ∃ response entries,
    (test_database crowded_world).1 = Ok response
    ∧ response !! "collections" = Some (VList entries)
    ∧ length entries = 10%nat.
Proof. eexists _, _. repeat split. Qed.

Lemma test_database_never_raises_witness :
  ∃ response w',
    route test_database failing_world = (Http200 response, w')
    ∧ response !! "database"
      = Some (VStr "⚠️  Connected but Error: connection refused").
Proof.
  destruct (test_database_never_raises failing_world)
    as (response & w' & _ & Hroute & _ & _ & Herr).
  exists response, w'. split; [exact Hroute|].
  apply (Herr failing_db "connection refused"); reflexivity.
Defined.

(** * Further properties of the handlers *)

(** ** Invariants, in general *)

Lemma preserves_getenv (I : World → Prop) (key : string) : preserves I (getenv key).
Proof. intros w H; exact H. Qed.

Lemma preserves_lift {A} (I : World → Prop) (r : result A) : preserves I (lift r).
Proof. intros w H; exact H. Qed.

(** An operation on the store keeps an invariant that both the tick of the
    clock and the effect of the operation keep. *)
Lemma preserves_store_op_inv {A} (I : World → Prop) (op : Database → A * Database) :
  (∀ w d, I w → db w = Some d → I (set_db w (tick d))) →
  (∀ w d, I w → db w = Some d → I (set_db w (op (tick d)).2)) →
  preserves I (store_op op).
Proof.
  intros Htick Hop w Hw. unfold store_op.
  destruct (db w) as [d|] eqn:Hd; [|done].
  destruct (fault d (clock d)); simpl; [by apply Htick|].
  specialize (Hop w d Hw Hd). by destruct (op (tick d)).
Qed.

(** The documents a collection has only ever get more. *)
Lemma preserves_prefix_create_document (coll c : string) (l : list doc) (data : doc) :
  preserves (λ w, l `prefix_of` docs_of w coll) (create_document c data).
Proof.
  apply preserves_bind; [apply preserves_get_db|].
  intros [d0|]; [|apply preserves_raise].
  apply preserves_store_op_inv; unfold docs_of; intros w d Hw Hd; rewrite Hd in Hw; simpl.
  - done.
  - destruct (decide (c = coll)) as [->|Hne].
    + rewrite lookup_total_insert_eq. by apply prefix_app_r.
    + by rewrite lookup_total_insert_ne.
Qed.

Lemma preserves_prefix_count_documents (coll c : string) (l : list doc) :
  preserves (λ w, l `prefix_of` docs_of w coll) (count_documents c).
Proof.
  apply preserves_store_op_inv; unfold docs_of; intros w d Hw Hd; by rewrite Hd in Hw.
Qed.

Lemma preserves_prefix_seed_collection (coll c : string) (l items : list doc) :
  preserves (λ w, l `prefix_of` docs_of w coll) (seed_collection c items).
Proof.
  apply preserves_bind; [apply preserves_prefix_count_documents|].
  intros n. destruct (decide (n = 0%nat)); [|apply preserves_ret].
  apply preserves_for_each. intros x.
  apply preserves_bind; [apply preserves_prefix_create_document|].
  intros _. apply preserves_ret.
Qed.

Lemma preserves_prefix_seed_content (coll : string) (l : list doc) :
  preserves (λ w, l `prefix_of` docs_of w coll) seed_content.
Proof.
  apply preserves_try; [|intros e; apply preserves_raise].
  apply preserves_bind; [apply preserves_get_db|]. intros d.
  apply preserves_bind; [destruct d; [apply preserves_ret|apply preserves_raise]|].
  intros _.
  repeat (apply preserves_bind; [apply preserves_prefix_seed_collection|]; intros _).
  apply preserves_ret.
Qed.

Lemma preserves_other_seed_collection (coll c : string) (l items : list doc) :
  c ≠ coll → preserves (λ w, docs_of w coll = l) (seed_collection c items).
Proof.
  intros Hne. apply preserves_bind; [apply preserves_count_documents|].
  intros n. destruct (decide (n = 0%nat)); [|apply preserves_ret].
  apply preserves_for_each. intros x.
  apply preserves_bind; [by apply preserves_create_document|].
  intros _. apply preserves_ret.
Qed.

Lemma preserves_other_seed_content (coll : string) (l : list doc) :
  coll ≠ "menuitem" → coll ≠ "testimonial" → coll ≠ "galleryimage" →
  preserves (λ w, docs_of w coll = l) seed_content.
Proof.
  intros H1 H2 H3.
  apply preserves_try; [|intros e; apply preserves_raise].
  apply preserves_bind; [apply preserves_get_db|]. intros d.
  apply preserves_bind; [destruct d; [apply preserves_ret|apply preserves_raise]|].
  intros _.
  repeat (apply preserves_bind; [by apply preserves_other_seed_collection|]; intros _).
  apply preserves_ret.
Qed.

(** ** More on seeding *)

(** What a bind returned came out of its second half. *)
Lemma run_bind_returns {A B} (m : M A) (f : A → M B) (w w' : World) (b : B) :
  (m ≫= f) w = (Ok b, w') → ∃ a w1, m w = (Ok a, w1) ∧ f a w1 = (Ok b, w').
Proof.
  rewrite run_bind. destruct (m w) as [[a|e] w1]; [eauto | done].
Qed.

Lemma seed_body_returns (w w' : World) (body : doc) :
  seed_body w = (Ok body, w') → body = ok_body.
Proof.
  unfold seed_body. intros H.
  repeat (apply run_bind_returns in H as (? & ? & _ & H)).
  by injection H as <- _.
Qed.

(** X1.  Whatever the state, [seed_content] answers in one of two ways:
    status 200 with the body [{"status": "ok"}], or status 500 with a
    detail.  No failure leaves the handler as anything but an
    [HTTPException] with status 500. *)
Theorem seed_content_outcomes (w : World) :
  (route seed_content w).1 = Http200 ok_body
  ∨ ∃ detail, (route seed_content w).1 = HttpError 500 detail.
Proof.
  unfold route, seed_content, try_except.
  destruct (seed_body w) as [[body|e] w'] eqn:Hrun; simpl.
  - left. by rewrite (seed_body_returns _ _ _ Hrun).
  - right. eauto.
Qed.

(** X2.  [seed_content] only ever adds documents.  Whatever the store does,
    the documents a collection had before the call are still there, in
    order, at the front of the collection after it; and a collection other
    than [menuitem], [testimonial] and [galleryimage] is exactly as it
    was. *)
Theorem seed_content_only_appends (w : World) (coll : string) :
  docs_of w coll `prefix_of` docs_of (seed_content w).2 coll
  ∧ (coll ≠ "menuitem" → coll ≠ "testimonial" → coll ≠ "galleryimage" →
     docs_of (seed_content w).2 coll = docs_of w coll).
Proof.
  split.
  - by apply (preserves_prefix_seed_content coll (docs_of w coll) w).
  - intros H1 H2 H3.
    by apply (preserves_other_seed_content coll (docs_of w coll) H1 H2 H3 w).
Qed.

Lemma seed_content_only_appends_witness :
  docs_of (seed_content seeded_world).2 "contactinquiry" = docs_of seeded_world "contactinquiry".
Proof.
  destruct (seed_content_only_appends seeded_world "contactinquiry") as [_ Hsame].
  apply Hsame; discriminate.
Defined.

(** X3.  Seeding decides collection by collection.  On a store that does not
    fail, [seed_content] answers [{"status": "ok"}]; a collection that was
    empty then holds as many documents as there are seed records for it
    (3, 3 and 6 for the three seeded collections, none for any other); a
    collection that was not empty is unchanged, also when the others were
    seeded. *)
Theorem seed_content_per_collection (w : World) (d : Database) :
  db w = Some d → no_faults d →
  (seed_content w).1 = Ok ok_body
  ∧ ∀ coll, if decide (docs_of w coll = [])
            then length (docs_of (seed_content w).2 coll) = length (seeds coll)
            else docs_of (seed_content w).2 coll = docs_of w coll.
Proof.
  intros Hd Hf.
  destruct (seed_content_ok w d Hd Hf) as (d' & Hrun & _ & _ & Hc).
  rewrite Hrun. split; [done|]. intros coll. specialize (Hc coll).
  unfold docs_of. rewrite Hd. simpl.
  destruct (decide (collections d !!! coll = [])); [by apply stamped_length | done].
Qed.

Lemma seed_content_per_collection_witness :
  docs_of (seed_content half_world).2 "menuitem" = [priced_doc]
  ∧ length (docs_of (seed_content half_world).2 "galleryimage") = 6%nat.
Proof.
  destruct (seed_content_per_collection half_world half_db) as [_ Hc];
    [reflexivity | intros k; reflexivity |].
  split.
  - apply (Hc "menuitem").
  - apply (Hc "galleryimage").
Defined.

(** X4.  A second run changes nothing, from any start.  On a store that
    does not fail, whatever it holds, after one run of [seed_content] a
    second run answers [{"status": "ok"}] and leaves every collection as
    the first run left it. *)
Theorem seed_content_twice (w : World) (d : Database) :
  db w = Some d → no_faults d →
  let w1 := (seed_content w).2 in
  (seed_content w1).1 = Ok ok_body
  ∧ ∀ coll, docs_of (seed_content w1).2 coll = docs_of w1 coll.
Proof.
  intros Hd Hf.
  destruct (seed_content_ok w d Hd Hf) as (d1 & Hrun1 & Hf1 & _ & Hc1).
  destruct (seed_content_ok (set_db w d1) d1 eq_refl Hf1) as (d2 & Hrun2 & _ & _ & Hc2).
  cbv zeta. rewrite Hrun1. simpl. rewrite Hrun2. split; [done|].
  intros coll. unfold docs_of. simpl.
  specialize (Hc1 coll). specialize (Hc2 coll).
  destruct (decide (collections d1 !!! coll = [])) as [Hnil|Hne]; [|done].
  rewrite Hnil.
  destruct (decide (collections d !!! coll = [])) as [Hnil0|Hne0].
  - rewrite Hnil in Hc1. apply stamped_length in Hc1. simpl in Hc1.
    destruct (seeds coll) as [|x xs] eqn:Hseeds; [|discriminate].
    apply stamped_length in Hc2. by destruct (collections d2 !!! coll).
  - congruence.
Qed.

Lemma seed_content_twice_witness :
  docs_of (seed_content (seed_content half_world).2).2 "menuitem"
  = docs_of (seed_content half_world).2 "menuitem"
  ∧ docs_of (seed_content (seed_content half_world).2).2 "galleryimage"
    = docs_of (seed_content half_world).2 "galleryimage".
Proof.
  destruct (seed_content_twice half_world half_db) as [_ Hsame];
    [reflexivity | intros k; reflexivity |].
  split; apply Hsame.
Defined.

(** ** What a failed run of [seed_content] reports *)










(** ** More on reading *)

Lemma read_models_state (cls : schema) (docs : list doc) (w : World) :
  (read_models cls docs w).2 = w.
Proof. unfold read_models. by rewrite mapM_lift. Qed.

Lemma preserves_read_models (I : World → Prop) (cls : schema) (docs : list doc) :
  preserves I (read_models cls docs).
Proof. intros w Hw. by rewrite read_models_state. Qed.

Lemma preserves_get_documents (coll c : string) (l : list doc) :
  preserves (λ w, docs_of w coll = l) (get_documents c).
Proof.
  apply preserves_bind; [apply preserves_get_db|].
  intros [d|]; [|apply preserves_raise]. by apply preserves_store_op.
Qed.

(** X6.  Reading writes nothing.  Whatever the state and whatever the
    outcome, [get_menu], [get_testimonials] and [get_gallery] leave the
    documents of every collection as they are. *)
Theorem reads_write_nothing (w : World) (coll : string) :
  docs_of (get_menu w).2 coll = docs_of w coll
  ∧ docs_of (get_testimonials w).2 coll = docs_of w coll
  ∧ docs_of (get_gallery w).2 coll = docs_of w coll.
Proof.
  split; [|split].
  - apply (preserves_bind (λ w', docs_of w' coll = docs_of w coll)); [| |done].
    + apply preserves_get_documents.
    + intros docs. apply (preserves_read_models _ MenuItem).
  - apply (preserves_bind (λ w', docs_of w' coll = docs_of w coll)); [| |done].
    + apply preserves_get_documents.
    + intros docs. apply (preserves_read_models _ Testimonial).
  - apply (preserves_bind (λ w', docs_of w' coll = docs_of w coll)); [| |done].
    + apply preserves_get_documents.
    + intros docs. apply (preserves_read_models _ GalleryImage).
Qed.

(** X7.  Reading an empty collection.  When the storage read goes through
    and the collection holds no document, or does not exist, the three read
    handlers answer with status 200 and the empty list. *)
Theorem reads_of_nothing (w : World) (d : Database) :
  db w = Some d → fault d (clock d) = None →
  (docs_of w "menuitem" = [] → (route get_menu w).1 = Http200 [])
  ∧ (docs_of w "testimonial" = [] → (route get_testimonials w).1 = Http200 [])
  ∧ (docs_of w "galleryimage" = [] → (route get_gallery w).1 = Http200 []).
Proof.
  intros Hd Hf. split; [|split]; intros Hnil.
  - unfold route, get_menu. by rewrite run_bind, (get_documents_ok _ w d Hd Hf), Hnil.
  - unfold route, get_testimonials.
    by rewrite run_bind, (get_documents_ok _ w d Hd Hf), Hnil.
  - unfold route, get_gallery. by rewrite run_bind, (get_documents_ok _ w d Hd Hf), Hnil.
Qed.

Lemma reads_of_nothing_witness :
  (route get_testimonials empty_world).1 = Http200 [].
Proof.
  destruct (reads_of_nothing empty_world empty_db) as (_ & Ht & _);
    [reflexivity | reflexivity |].
  apply Ht. reflexivity.
Defined.

Lemma known_fields_agree (cls : schema) (d1 d2 : doc) :
  agree_on cls d1 d2 → known_fields cls d1 = known_fields cls d2.
Proof.
  intros H. apply map_eq. intros k. rewrite !known_fields_lookup.
  destruct (decide (k ∈ model_fields cls)); [by apply H | done].
Qed.

Lemma read_models_agree (cls : schema) (docs1 docs2 : list doc) (w1 w2 : World) :
  Forall2 (agree_on cls) docs1 docs2 →
  (read_models cls docs1 w1).1 = (read_models cls docs2 w2).1.
Proof.
  intros H. unfold read_models. rewrite !mapM_lift. simpl.
  induction H as [|d1 d2 docs1 docs2 Hd _ IH]; simpl; [done|].
  by rewrite (known_fields_agree cls d1 d2 Hd), IH.
Qed.

(** X8.  The answer of a read depends on the declared fields only.  Two
    states whose stored documents agree, one by one, on the fields of the
    schema get the same answer from [get_menu] (and likewise from
    [get_testimonials] and [get_gallery]), whatever else the documents
    carry: the same list, or the same [ValidationError]. *)
Theorem reads_depend_on_declared_fields (w1 w2 : World) (d1 d2 : Database) :
  db w1 = Some d1 → fault d1 (clock d1) = None →
  db w2 = Some d2 → fault d2 (clock d2) = None →
  (Forall2 (agree_on MenuItem) (docs_of w1 "menuitem") (docs_of w2 "menuitem") →
   (get_menu w1).1 = (get_menu w2).1)
  ∧ (Forall2 (agree_on Testimonial) (docs_of w1 "testimonial") (docs_of w2 "testimonial") →
     (get_testimonials w1).1 = (get_testimonials w2).1)
  ∧ (Forall2 (agree_on GalleryImage) (docs_of w1 "galleryimage") (docs_of w2 "galleryimage") →
     (get_gallery w1).1 = (get_gallery w2).1).
Proof.
  intros Hd1 Hf1 Hd2 Hf2. split; [|split]; intros Hagree.
  - unfold get_menu.
    rewrite !run_bind, (get_documents_ok _ w1 d1 Hd1 Hf1), (get_documents_ok _ w2 d2 Hd2 Hf2).
    by apply (read_models_agree MenuItem).
  - unfold get_testimonials.
    rewrite !run_bind, (get_documents_ok _ w1 d1 Hd1 Hf1), (get_documents_ok _ w2 d2 Hd2 Hf2).
    by apply (read_models_agree Testimonial).
  - unfold get_gallery.
    rewrite !run_bind, (get_documents_ok _ w1 d1 Hd1 Hf1), (get_documents_ok _ w2 d2 Hd2 Hf2).
    by apply (read_models_agree GalleryImage).
Qed.

Lemma agree_priced_repriced : agree_on MenuItem priced_doc repriced_doc.
Proof.
  intros k Hk. unfold repriced_doc.
  rewrite !lookup_insert_ne; [done | | |]; intros <-; revert Hk;
    by apply (bool_decide_eq_true_1 (_ ∉ model_fields MenuItem)).
Qed.

Lemma reads_depend_on_declared_fields_witness :
  (get_menu (menu_world [priced_doc])).1 = (get_menu (menu_world [repriced_doc])).1.
Proof.
  destruct (reads_depend_on_declared_fields
              (menu_world [priced_doc]) (menu_world [repriced_doc])
              (menu_db [priced_doc]) (menu_db [repriced_doc])) as [Hmenu _];
    [reflexivity | reflexivity | reflexivity | reflexivity |].
  apply Hmenu. constructor; [apply agree_priced_repriced | constructor].
Defined.

(** X9.  How a read can end.  Whatever the state, [get_menu] (and likewise
    [get_testimonials] and [get_gallery]) answers with status 200 and a
    list, or fails with the bare 500 of the framework, on a failure of the
    store or on a [ValidationError]; it never answers with a detail. *)
Theorem reads_outcomes (w : World) :
  list_or_bare_500 (route get_menu w).1
  ∧ list_or_bare_500 (route get_testimonials w).1
  ∧ list_or_bare_500 (route get_gallery w).1.
Proof.
  assert (∀ cls coll,
    list_or_bare_500 (route (get_documents coll ≫= read_models cls) w).1) as H.
  { intros cls coll. unfold list_or_bare_500, route. rewrite run_bind.
    destruct (get_documents coll w) as [[docs|e] w'] eqn:Hread.
    - destruct (forallb (conforms cls) docs) eqn:Hc.
      + pose proof (read_models_is_ok cls docs w') as Hok. rewrite Hc in Hok.
        destruct (read_models cls docs w') as [[rs|e] w'']; [|done].
        left. by exists rs.
      + destruct (read_models_raises cls docs w' Hc) as [errs ->].
        right. right. by exists errs.
    - destruct (get_documents_raises _ _ _ _ Hread) as [msg ->].
      right. left. by exists msg. }
  split; [|split].
  - apply (H MenuItem "menuitem").
  - apply (H Testimonial "testimonial").
  - apply (H GalleryImage "galleryimage").
Qed.

(** A stored document with a field of the wrong type costs the whole menu:
    the client gets the bare 500. *)
Example get_menu_mistyped :
  (route get_menu (menu_world [priced_doc; mistyped_doc])).1
  = InternalServerError (ValidationError ["tags"]).
Proof. reflexivity. Qed.

(** ** More on the contact form *)

(** X10.  [post_contact] stores one record or none.  Whatever the state,
    either it answers [{"status": "received"}], the collection
    [contactinquiry] has exactly one document more, at its end, and every
    other collection is as it was; or it raises status 500 with a detail
    and no collection has changed. *)
Theorem post_contact_all_or_nothing (payload : model) (w : World) :
  let w' := (post_contact payload w).2 in
  ((post_contact payload w).1 = Ok received_body
   ∧ (∃ stored, docs_of w' "contactinquiry"
                = (docs_of w "contactinquiry" ++ [stored])%list)
   ∧ ∀ coll, coll ≠ "contactinquiry" → docs_of w' coll = docs_of w coll)
  ∨ ((∃ detail, (post_contact payload w).1 = Raise (HTTPException 500 detail))
     ∧ ∀ coll, docs_of w' coll = docs_of w coll).
Proof.
  cbv zeta. unfold post_contact, try_except. rewrite run_bind.
  destruct (db w) as [d|] eqn:Hd.
  - destruct (fault d (clock d)) as [msg|] eqn:Hf.
    + rewrite (create_document_fault _ _ w d msg Hd Hf). simpl. right.
      split; [eauto|]. intros coll. unfold docs_of. by rewrite Hd.
    + destruct (create_document_ok "contactinquiry" (model_dump payload) w d Hd Hf)
        as [v ->].
      simpl. left. split; [done|]. unfold docs_of. rewrite Hd. simpl. split.
      * eexists. by rewrite lookup_total_insert_eq.
      * intros coll Hne. by rewrite lookup_total_insert_ne.
  - rewrite (create_document_unavailable _ _ w Hd). simpl. right.
    split; [eauto | done].
Qed.

Lemma post_contact_result (payload : model) (w : World) :
  (post_contact payload w).1 = Ok received_body
  ∨ ∃ detail, (post_contact payload w).1 = Raise (HTTPException 500 detail).
Proof.
  unfold post_contact, try_except. rewrite run_bind.
  destruct (create_document "contactinquiry" (model_dump payload) w) as [[v|e] w'];
    simpl; [by left | right; eauto].
Qed.

(** X11.  The outcome of [POST /contact] follows the body.  A body that does
    not conform to the schema is answered 422 with the fields at fault, and
    nothing runs; a body that conforms, whatever other keys it carries, is
    answered 200 with [{"status": "received"}] or 500 with a detail.  The
    route never ends in an exception the framework has to handle. *)
Theorem contact_route_outcomes (ContactInquiry : schema) (body : doc) (w : World) :
  (conforms ContactInquiry body = false →
   ∃ fields, fields ≠ [] ∧ contact_route ContactInquiry body w = (Http422 fields, w))
  ∧ (conforms ContactInquiry body = true →
     (contact_route ContactInquiry body w).1 = Http200 received_body
     ∨ ∃ detail, (contact_route ContactInquiry body w).1 = HttpError 500 detail).
Proof.
  split; intros Hc; unfold contact_route.
  - unfold construct.
    destruct (field_errors ContactInquiry body) as [|x errs] eqn:He.
    + apply field_errors_nil in He. congruence.
    + exists (x :: errs). done.
  - rewrite (construct_ok _ _ Hc). unfold route.
    destruct (post_contact_result
                (omap (λ f, pair (fname f) <$> field_value body f) ContactInquiry) w)
      as [Hok|[detail Hraise]].
    + destruct (post_contact _ w) as [r w']. simpl in *. subst r. by left.
    + destruct (post_contact _ w) as [r w']. simpl in *. subst r. right. eauto.
Qed.

Lemma contact_route_outcomes_witness :
  (∃ fields, fields ≠ []
             ∧ contact_route example_inquiry {[ "name" := VInt 7 ]} empty_world
               = (Http422 fields, empty_world))
  ∧ ((contact_route example_inquiry (<["newsletter" := VStr "yes"]> example_body)
        failing_world).1 = Http200 received_body
     ∨ ∃ detail,
         (contact_route example_inquiry (<["newsletter" := VStr "yes"]> example_body)
            failing_world).1 = HttpError 500 detail).
Proof.
  split.
  - apply (contact_route_outcomes example_inquiry {[ "name" := VInt 7 ]} empty_world).
    reflexivity.
  - apply (contact_route_outcomes example_inquiry
             (<["newsletter" := VStr "yes"]> example_body) failing_world).
    reflexivity.
Defined.

Lemma post_contact_ok (payload : model) (w : World) (d : Database) :
  db w = Some d → fault d (clock d) = None →
  post_contact payload w
  = (Ok received_body, set_db w (inserted "contactinquiry" (model_dump payload) (tick d))).
Proof.
  intros Hd Hf. unfold post_contact, try_except. rewrite run_bind.
  by destruct (create_document_ok "contactinquiry" (model_dump payload) w d Hd Hf)
    as [v ->].
Qed.

Lemma submit_all_ok (payloads : list model) (w : World) (d : Database) :
  db w = Some d → no_faults d →
  submit_all payloads w
  = (Ok (), set_db w (insert_all "contactinquiry" (model_dump <$> payloads) d)).
Proof.
  unfold submit_all. revert w d.
  induction payloads as [|p ps IH]; intros w d Hd Hf; simpl.
  - by rewrite set_db_same.
  - rewrite run_bind, run_bind, (post_contact_ok p w d Hd (Hf _)). simpl.
    rewrite (IH _ (inserted "contactinquiry" (model_dump p) (tick d)));
      [done | done | intros k; apply Hf].
Qed.

(** X12.  Submissions add up.  On a store that does not fail, a client that
    submits a list of payloads one after the other gets every one of them
    received, and [contactinquiry] then holds what it held before, followed
    by one document per payload; every other collection is as it was. *)
Theorem submit_all_accumulates (payloads : list model) (w : World) (d : Database) :
  db w = Some d → no_faults d →
  let w' := (submit_all payloads w).2 in
  (submit_all payloads w).1 = Ok ()
  ∧ (∃ stored, docs_of w' "contactinquiry"
               = (docs_of w "contactinquiry" ++ stored)%list
               ∧ length stored = length payloads)
  ∧ ∀ coll, coll ≠ "contactinquiry" → docs_of w' coll = docs_of w coll.
Proof.
  intros Hd Hf. cbv zeta. rewrite (submit_all_ok payloads w d Hd Hf).
  split; [done|]. unfold docs_of. rewrite Hd. simpl. split.
  - destruct (insert_all_same "contactinquiry" (model_dump <$> payloads) d)
      as (stored & Heq & Hst).
    exists stored. split; [done|].
    by rewrite (stamped_length _ _ Hst), length_fmap.
  - intros coll Hne. by apply insert_all_other.
Qed.

Lemma submit_all_accumulates_witness :
  ∃ stored,
    docs_of (submit_all [example_payload; example_payload] empty_world).2 "contactinquiry"
    = (docs_of empty_world "contactinquiry" ++ stored)%list
    ∧ length stored = 2%nat.
Proof.
  destruct (submit_all_accumulates [example_payload; example_payload] empty_world empty_db)
    as (_ & Hstored & _); [reflexivity | intros k; reflexivity |].
  exact Hstored.
Defined.

(** ** More on the diagnostic endpoint *)

Lemma preserves_list_collection_names (coll : string) (l : list doc) :
  preserves (λ w, docs_of w coll = l) list_collection_names.
Proof. by apply preserves_store_op. Qed.

(** X13.  The diagnostic writes nothing.  Whatever the state,
    [test_database] leaves the documents of every collection as they
    are. *)
Theorem test_database_writes_nothing (w : World) (coll : string) :
  docs_of (test_database w).2 coll = docs_of w coll.
Proof.
  assert (preserves (λ w', docs_of w' coll = docs_of w coll) test_database) as H;
    [|exact (H w eq_refl)].
  unfold test_database. cbv zeta.
  apply preserves_bind; [apply preserves_get_db|]. intros o.
  apply preserves_bind.
  - destruct o as [d|]; [|apply preserves_ret].
    apply preserves_try; [|intros e; apply preserves_ret].
    apply preserves_try; [|intros e; apply preserves_ret].
    apply preserves_bind; [apply preserves_list_collection_names|].
    intros names. apply preserves_ret.
  - intros response.
    apply preserves_bind; [apply preserves_getenv|]. intros url.
    apply preserves_bind; [apply preserves_getenv|]. intros dbname.
    apply preserves_ret.
Qed.

(** The fields of the answer that the claims leave out. *)
Lemma test_database_status (w : World) :
  ∃ response w',
    test_database w = (Ok response, w')
    ∧ response !! "backend" = Some (VStr "✅ Running")
    ∧ response !! "connection_status"
      = Some (VStr (match db w with Some _ => "Connected" | None => "Not Connected" end)).
Proof.
  destruct (db w) as [d|] eqn:Hd.
  - destruct (fault d (clock d)) as [msg|] eqn:Hf.
    + run_test_database Hd. rewrite Hf. cbv beta iota zeta.
      eexists _, _. split; [reflexivity|]. split; reflexivity.
    + run_test_database Hd. rewrite Hf. cbv beta iota zeta.
      eexists _, _. split; [reflexivity|]. split; reflexivity.
  - run_test_database Hd.
    eexists _, _. split; [reflexivity|]. split; reflexivity.
Qed.

(** X14.  What [connection_status] says.  The answer of [test_database] has
    [backend] at ["✅ Running"] in every state, and its [connection_status]
    is ["Connected"] exactly when there is a storage handle, also when the
    store behind the handle fails to answer; without a handle it is
    ["Not Connected"]. *)
Theorem test_database_connection_status (w : World) :
  ∃ response w',
    test_database w = (Ok response, w')
    ∧ response !! "backend" = Some (VStr "✅ Running")
    ∧ (response !! "connection_status" = Some (VStr "Connected") ↔ is_Some (db w))
    ∧ (response !! "connection_status" = Some (VStr "Not Connected") ↔ db w = None).
Proof.
  destruct (test_database_status w) as (response & w' & Hrun & Hb & Hc).
  exists response, w'. split; [done|]. split; [done|]. rewrite Hc.
  destruct (db w) as [d|]; split; split; intros H; done.
Qed.

(** X15.  What [database_url] says.  Whatever the state of the connection,
    the [database_url] of the answer is ["✅ Set"] exactly when the
    environment has a [DATABASE_URL] that is not the empty string, and
    ["❌ Not Set"] otherwise: a variable set to the empty string counts as
    not set, and the value ["✅ Configured"] never reaches the client. *)
Theorem test_database_url (w : World) :
  ∃ response w',
    test_database w = (Ok response, w')
    ∧ (response !! "database_url" = Some (VStr "✅ Set")
       ∨ response !! "database_url" = Some (VStr "❌ Not Set"))
    ∧ (response !! "database_url" = Some (VStr "✅ Set")
       ↔ ∃ v, environ w !! "DATABASE_URL" = Some v ∧ v ≠ "").
Proof.
  destruct (test_database_returns w) as (response & w' & Hrun & _ & Hurl & _).
  exists response, w'. split; [done|]. rewrite Hurl. unfold set_or_not.
  rewrite <- truthy_spec.
  destruct (truthy (environ w !! "DATABASE_URL")); split; [by left | done | by right | done].
Qed.

(** With [DATABASE_URL] set to the empty string, the answer says it is not
    set. *)
Example test_database_blank_url :
  ∃ response, (test_database blank_url_world).1 = Ok response
              ∧ response !! "database_url" = Some (VStr "❌ Not Set")
              ∧ response !! "database_name" = Some (VStr "✅ Set").
Proof. eexists. repeat split. Qed.

(** X16.  What [collections] lists.  When the store answers, the
    [collections] of the answer are names of collections of the store, no
    name twice, and as many as the store has collections, up to 10. *)
Theorem test_database_collections (w : World) (d : Database) :
  db w = Some d → fault d (clock d) = None →
  ∃ response w' names,
    test_database w = (Ok response, w')
    ∧ response !! "collections" = Some (VList (VStr <$> names))
    ∧ NoDup names
    ∧ (∀ c, c ∈ names → is_Some (collections d !! c))
    ∧ length names = Nat.min 10 (size (collections d)).
Proof.
  intros Hd Hf.
  destruct (test_database_returns w) as (response & w' & Hrun & _ & _ & _ & Hdb).
  rewrite Hd, Hf in Hdb. destruct Hdb as [_ Hcolls].
  exists response, w', (take 10 (elements (dom (collections d)))).
  split; [done|]. split; [done|]. split; [|split].
  - apply (sublist_NoDup _ (elements (dom (collections d))));
      [apply NoDup_elements | apply sublist_take].
  - intros c Hc. apply subseteq_take in Hc.
    apply elem_of_elements in Hc. by apply elem_of_dom.
  - rewrite length_take. f_equal.
    change (size (dom (collections d)) = size (collections d)). apply size_dom.
Qed.

Lemma test_database_collections_witness :
  ∃ response w' names,
    test_database crowded_world = (Ok response, w')
    ∧ response !! "collections" = Some (VList (VStr <$> names))
    ∧ length names = 10%nat.
Proof.
  destruct (test_database_collections crowded_world crowded_db)
    as (response & w' & names & Hrun & Hcolls & _ & _ & Hlen);
    [reflexivity | reflexivity |].
  exists response, w', names. split; [exact Hrun|]. split; [exact Hcolls|].
  rewrite Hlen. reflexivity.
Defined.






(** Of a message of 60 characters, 50 are shown. *)
Example test_database_cuts_at_50 :
  ∃ response,
    (test_database verbose_world).1 = Ok response
    ∧ response !! "database"
      = Some (VStr "⚠️  Connected but Error: 01234567890123456789012345678901234567890123456789").
Proof. eexists. split; reflexivity. Qed.
